(** * PyWard security rules: a shallow embedding of
      [pyward/rules/security_rules.py] and the properties of its checks.

    The Python module takes an [ast.AST] tree and returns a list of
    diagnostic strings.  Each check either walks the tree with a
    [NodeVisitor] subclass appending to a local [issues] list, or iterates
    over [ast.walk].  Attribute lookups that can fail ([node.lineno] on a
    node built without location information) raise [AttributeError]; the
    embedding threads the [issues] list and that exception explicitly. *)

From Stdlib Require Import List String Ascii ZArith Bool Lia Permutation.
From Stdlib Require Import DecimalString.
From Equations Require Import Equations.
Import ListNotations.
Open Scope string_scope.
Open Scope list_scope.

Set Implicit Arguments.

(** ** Exceptions and results *)

Module Result.

(** The exception the embedding models, raised by reading [lineno] on a
    node that has none:
    [AttributeError: '<cls>' object has no attribute '<attr>'].
    What the interpreter can raise besides is outside the model: a
    [RecursionError] of a [NodeVisitor] on a very deep tree, a field missing
    on a hand-built node, the digit limit of [str] on an integer. *)
Inductive exn : Type :=
| AttributeError (cls attr : string).

Inductive result (A : Type) : Type :=
| Ok (a : A)
| Raise (e : exn).
Arguments Ok {A} a.
Arguments Raise {A} e.

Definition bind {A B : Type} (m : result A) (k : A -> result B) : result B :=
  match m with
  | Ok a => k a
  | Raise e => Raise e
  end.

Definition raises {A : Type} (m : result A) : bool :=
  match m with
  | Ok _ => false
  | Raise _ => true
  end.

(** [for x in xs: body(x)] over a threaded state. *)
Section For.
Variables (X S : Type) (body : X -> S -> result S).
Fixpoint for_each (xs : list X) (s : S) : result S :=
  match xs with
  | [] => Ok s
  | x :: xs' => bind (body x s) (for_each xs')
  end.
End For.

End Result.
Import Result.

Notation "x <- m ;; k" := (bind m (fun x => k))
  (at level 61, m at next level, right associativity).

(** ** Python strings *)

Module Str.

(** [s in (a, b, ...)] for a tuple of strings. *)
Definition in_tuple (s : string) (t : list string) : bool :=
  existsb (String.eqb s) t.

(** [s.startswith(p)] *)
Definition startswith (s p : string) : bool := String.prefix p s.

(** [sub in s]: [sub] occurs in [s] as a contiguous substring. *)
Fixpoint contains (sub s : string) : bool :=
  String.prefix sub s ||
  match s with
  | EmptyString => false
  | String _ s' => contains sub s'
  end.

Definition lower_ascii (c : ascii) : ascii :=
  let n := nat_of_ascii c in
  if (65 <=? n)%nat && (n <=? 90)%nat then ascii_of_nat (n + 32) else c.

Definition upper_ascii (c : ascii) : ascii :=
  let n := nat_of_ascii c in
  if (97 <=? n)%nat && (n <=? 122)%nat then ascii_of_nat (n - 32) else c.

Fixpoint map_chars (f : ascii -> ascii) (s : string) : string :=
  match s with
  | EmptyString => EmptyString
  | String c s' => String (f c) (map_chars f s')
  end.

(** [s.lower()] and [s.upper()]: strings are modelled over [ascii], where
    only the letters [A]-[Z] and [a]-[z] have another case. *)
Definition lower : string -> string := map_chars lower_ascii.
Definition upper : string -> string := map_chars upper_ascii.

(** [str(n)] for an integer, as an f-string renders [{node.lineno}]. *)
Definition str_int (n : Z) : string := NilZero.string_of_int (Z.to_int n).

End Str.

(** ** The syntax tree

    One constructor per node class the rules dispatch on or inspect, with
    the fields the rules and the traversals read, in the order of the
    class's [_fields]; [Other] stands for a node of any other class and
    carries its child nodes in field order.  [lineno] is an attribute, not
    a field: it is [None] on a node that was built without location
    information.  The [ctx] children of [Name] and [Attribute] are leaves
    no rule looks at and are left out. *)

Inductive constant : Type :=
| CNone
| CBool (b : bool)
| CInt (n : Z)
| CFloat (repr : string)
| CStr (s : string)
| CBytes (s : string)
| CEllipsis.

Record alias : Type := Alias { alias_name : string; alias_asname : option string }.

Unset Elimination Schemes.
Inductive node : Type :=
| Name (id : string) (lineno : option Z)
| Constant (value : constant) (lineno : option Z)
| Attribute (value : node) (attr : string) (lineno : option Z)
| Call (func : node) (args : list node) (keywords : list keyword) (lineno : option Z)
| Assign (targets : list node) (value : node) (lineno : option Z)
| Import (names : list alias) (lineno : option Z)
| ImportFrom (module : option string) (names : list alias) (lineno : option Z)
| Other (children : list node) (lineno : option Z)
with keyword : Type :=
| Keyword (arg : option string) (value : node).
Set Elimination Schemes.

Definition kw_arg (kw : keyword) : option string :=
  match kw with Keyword a _ => a end.

Definition kw_value (kw : keyword) : node :=
  match kw with Keyword _ v => v end.

Definition class_name (n : node) : string :=
  match n with
  | Name _ _ => "Name"
  | Constant _ _ => "Constant"
  | Attribute _ _ _ => "Attribute"
  | Call _ _ _ _ => "Call"
  | Assign _ _ _ => "Assign"
  | Import _ _ => "Import"
  | ImportFrom _ _ _ => "ImportFrom"
  | Other _ _ => "AST"
  end.

Definition lineno_attr (n : node) : option Z :=
  match n with
  | Name _ l | Constant _ l | Attribute _ _ l | Call _ _ _ l
  | Assign _ _ l | Import _ l | ImportFrom _ _ l | Other _ l => l
  end.

(** [node.lineno] *)
Definition get_lineno (n : node) : result Z :=
  match lineno_attr n with
  | Some l => Ok l
  | None => Raise (AttributeError (class_name n) "lineno")
  end.

(** ** [ast.NodeVisitor] *)

Definition issues_t : Type := list string.

(** [NodeVisitor.generic_visit]: call [self.visit] on every child node, in
    field order.  A [keyword] has no [visit_keyword] in any visitor below,
    so visiting it is visiting its [value]; an [alias] has no children. *)
Definition generic_visit (visit : node -> issues_t -> result issues_t)
    (n : node) (issues : issues_t) : result issues_t :=
  match n with
  | Name _ _ | Constant _ _ | Import _ _ | ImportFrom _ _ _ => Ok issues
  | Attribute value _ _ => visit value issues
  | Call func args keywords _ =>
      issues <- visit func issues ;;
      issues <- for_each visit args issues ;;
      for_each (fun kw => visit (kw_value kw)) keywords issues
  | Assign targets value _ =>
      issues <- for_each visit targets issues ;;
      visit value issues
  | Other children _ => for_each visit children issues
  end.

(** ** check_exec_eval_usage *)

Definition exec_eval_message (lineno : Z) (id : string) : string :=
  "[Security][CVE-2025-3248] Line " ++ Str.str_int lineno ++ ": " ++
  "Use of '" ++ id ++ "()' detected. " ++
  "This can lead to code injection (e.g. CVE-2025-3248 in Langflow). " ++
  "Consider safer alternatives (e.g., ast.literal_eval) or explicit parsing.".

(** The body of [ExecEvalVisitor.visit_Call] before [self.generic_visit]. *)
Definition ExecEvalVisitor_visit_Call (n : node) (issues : issues_t)
  : result issues_t :=
  match n with
  | Call (Name id _) _ _ _ =>
      if Str.in_tuple id ["exec"; "eval"] then
        lineno <- get_lineno n ;;
        Ok (issues ++ [exec_eval_message lineno id])
      else Ok issues
  | _ => Ok issues
  end.

Fixpoint ExecEvalVisitor (n : node) (issues : issues_t) {struct n}
  : result issues_t :=
  match n with
  | Call _ _ _ _ =>
      issues <- ExecEvalVisitor_visit_Call n issues ;;
      generic_visit ExecEvalVisitor n issues
  | _ => generic_visit ExecEvalVisitor n issues
  end.

Definition check_exec_eval_usage (tree : node) : result (list string) :=
  ExecEvalVisitor tree [].

(** ** [ast.walk] and [ast.iter_child_nodes]

    [ast.walk] yields objects of every node class, [keyword] and [alias]
    included, so its queue holds a sum of the three kinds of object. *)

Inductive AST : Type :=
| ANode (n : node)
| AKeyword (kw : keyword)
| AAlias (a : alias).

(** [ast.iter_child_nodes]: the direct child nodes, in field order. *)
Definition iter_child_nodes (x : AST) : list AST :=
  match x with
  | ANode (Name _ _) | ANode (Constant _ _) => []
  | ANode (Attribute value _ _) => [ANode value]
  | ANode (Call func args keywords _) =>
      ANode func :: map ANode args ++ map AKeyword keywords
  | ANode (Assign targets value _) => map ANode targets ++ [ANode value]
  | ANode (Import names _) => map AAlias names
  | ANode (ImportFrom _ names _) => map AAlias names
  | ANode (Other children _) => map ANode children
  | AKeyword kw => [ANode (kw_value kw)]
  | AAlias _ => []
  end.

Definition list_sum_by {X : Type} (f : X -> nat) (l : list X) : nat :=
  fold_right (fun x acc => f x + acc) 0 l.

Fixpoint node_size (n : node) : nat :=
  S match n with
    | Name _ _ | Constant _ _ => 0
    | Attribute value _ _ => node_size value
    | Call func args keywords _ =>
        node_size func + list_sum_by node_size args +
        list_sum_by (fun kw => S (node_size (kw_value kw))) keywords
    | Assign targets value _ => list_sum_by node_size targets + node_size value
    | Import names _ | ImportFrom _ names _ => List.length names
    | Other children _ => list_sum_by node_size children
    end.

Definition ast_size (x : AST) : nat :=
  match x with
  | ANode n => node_size n
  | AKeyword kw => S (node_size (kw_value kw))
  | AAlias _ => 1
  end.

Lemma list_sum_by_app {X} (f : X -> nat) (l1 l2 : list X) :
  list_sum_by f (l1 ++ l2) = list_sum_by f l1 + list_sum_by f l2.
Proof. induction l1 as [|x l1 IH]; simpl; [reflexivity | rewrite IH; lia]. Qed.

Lemma list_sum_by_ANode (l : list node) :
  list_sum_by ast_size (map ANode l) = list_sum_by node_size l.
Proof. induction l as [|x l IH]; simpl; [reflexivity | rewrite IH; reflexivity]. Qed.

Lemma list_sum_by_AKeyword (l : list keyword) :
  list_sum_by ast_size (map AKeyword l) =
  list_sum_by (fun kw => S (node_size (kw_value kw))) l.
Proof. induction l as [|x l IH]; simpl; [reflexivity | rewrite IH; reflexivity]. Qed.

Lemma list_sum_by_AAlias (l : list alias) :
  list_sum_by ast_size (map AAlias l) = List.length l.
Proof. induction l as [|x l IH]; simpl; [reflexivity | rewrite IH; reflexivity]. Qed.

Lemma iter_child_nodes_size (x : AST) :
  S (list_sum_by ast_size (iter_child_nodes x)) = ast_size x.
Proof.
  destruct x as [n|kw|a]; [destruct n | |]; simpl;
    rewrite ?list_sum_by_app, ?list_sum_by_ANode, ?list_sum_by_AKeyword,
      ?list_sum_by_AAlias; simpl; lia.
Qed.

(** The loop of [ast.walk]:
    [todo = deque([node]); while todo: node = todo.popleft();
     todo.extend(iter_child_nodes(node)); yield node]. *)
Equations? walk_queue (todo : list AST) : list AST
  by wf (list_sum_by ast_size todo) lt :=
  walk_queue [] := [];
  walk_queue (x :: todo) := x :: walk_queue (todo ++ iter_child_nodes x).
Proof.
  rewrite list_sum_by_app. pose proof (iter_child_nodes_size x). lia.
Qed.

Definition walk (tree : node) : list AST := walk_queue [ANode tree].

(** ** check_python_json_logger_import *)

Definition json_logger_import_message (lineno : Z) : string :=
  "[Security][CVE-2025-27607] Line " ++ Str.str_int lineno ++ ": " ++
  "'python_json_logger' import detected. This package was vulnerable to RCE " ++
  "between Dec 30, 2024 and Mar 4, 2025 (CVE-2025-27607). " ++
  "Update to a patched version or remove this dependency.".

Definition json_logger_from_message (lineno : Z) : string :=
  "[Security][CVE-2025-27607] Line " ++ Str.str_int lineno ++ ": " ++
  "'from python_json_logger import ...' detected. This package was vulnerable to RCE " ++
  "between Dec 30, 2024 and Mar 4, 2025 (CVE-2025-27607). " ++
  "Update to a patched version or remove this dependency.".

(** [name == "python_json_logger" or name.startswith("python_json_logger.")] *)
Definition is_json_logger (name : string) : bool :=
  String.eqb name "python_json_logger" ||
  Str.startswith name "python_json_logger.".

(** [node.module or ""] *)
Definition module_or_empty (module : option string) : string :=
  match module with
  | Some m => m
  | None => ""
  end.

(** The body of [for node in ast.walk(tree)]. *)
Definition json_logger_loop_body (x : AST) (issues : issues_t)
  : result issues_t :=
  match x with
  | ANode (Import names _ as n) =>
      for_each
        (fun a issues =>
           if is_json_logger (alias_name a) then
             lineno <- get_lineno n ;;
             Ok (issues ++ [json_logger_import_message lineno])
           else Ok issues)
        names issues
  | ANode (ImportFrom module _ _ as n) =>
      let mod_ := module_or_empty module in
      if is_json_logger mod_ then
        lineno <- get_lineno n ;;
        Ok (issues ++ [json_logger_from_message lineno])
      else Ok issues
  | _ => Ok issues
  end.

Definition check_python_json_logger_import (tree : node) : result (list string) :=
  for_each json_logger_loop_body (walk tree) [].

(** ** check_subprocess_usage *)

Definition subprocess_message (lineno : Z) (attr : string) : string :=
  "[Security] Line " ++ Str.str_int lineno ++ ": Use of subprocess." ++ attr ++
  "() with shell=True. " ++
  "Risk of shell injection. " ++
  "Recommendation: Use a list of arguments and shell=False.".

(** [kw.arg == s] *)
Definition arg_is (kw : keyword) (s : string) : bool :=
  match kw_arg kw with
  | Some a => String.eqb a s
  | None => false
  end.

(** [isinstance(kw.value, ast.Constant) and kw.value.value is True] *)
Definition is_literal_True (n : node) : bool :=
  match n with
  | Constant (CBool true) _ => true
  | _ => false
  end.

Definition SubprocessVisitor_visit_Call (n : node) (issues : issues_t)
  : result issues_t :=
  match n with
  | Call (Attribute (Name id _) attr _) _ keywords _ =>
      if String.eqb id "subprocess" &&
         Str.in_tuple attr ["run"; "Popen"; "call"; "check_output"] then
        for_each
          (fun kw issues =>
             if arg_is kw "shell" then
               if is_literal_True (kw_value kw) then
                 lineno <- get_lineno n ;;
                 Ok (issues ++ [subprocess_message lineno attr])
               else Ok issues
             else Ok issues)
          keywords issues
      else Ok issues
  | _ => Ok issues
  end.

Fixpoint SubprocessVisitor (n : node) (issues : issues_t) {struct n}
  : result issues_t :=
  match n with
  | Call _ _ _ _ =>
      issues <- SubprocessVisitor_visit_Call n issues ;;
      generic_visit SubprocessVisitor n issues
  | _ => generic_visit SubprocessVisitor n issues
  end.

Definition check_subprocess_usage (tree : node) : result (list string) :=
  SubprocessVisitor tree [].

(** ** check_pickle_usage *)

Definition pickle_message (lineno : Z) (attr : string) : string :=
  "[Security] Line " ++ Str.str_int lineno ++ ": Use of pickle." ++ attr ++ "(). " ++
  "Untrusted pickle data can lead to RCE. " ++
  "Recommendation: Use json or verify signature before unpickling.".

Definition PickleVisitor_visit_Call (n : node) (issues : issues_t)
  : result issues_t :=
  match n with
  | Call (Attribute (Name id _) attr _) _ _ _ =>
      if String.eqb id "pickle" && Str.in_tuple attr ["load"; "loads"] then
        lineno <- get_lineno n ;;
        Ok (issues ++ [pickle_message lineno attr])
      else Ok issues
  | _ => Ok issues
  end.

Fixpoint PickleVisitor (n : node) (issues : issues_t) {struct n}
  : result issues_t :=
  match n with
  | Call _ _ _ _ =>
      issues <- PickleVisitor_visit_Call n issues ;;
      generic_visit PickleVisitor n issues
  | _ => generic_visit PickleVisitor n issues
  end.

Definition check_pickle_usage (tree : node) : result (list string) :=
  PickleVisitor tree [].

(** ** check_yaml_load_usage *)

Definition yaml_message (lineno : Z) : string :=
  "[Security] Line " ++ Str.str_int lineno ++ ": Use of yaml.load() without SafeLoader. " ++
  "Unsafe YAML loading can lead to code execution. " ++
  "Recommendation: Use yaml.safe_load() or specify Loader=yaml.SafeLoader.".

(** [kw.arg in ("Loader",) and isinstance(kw.value, ast.Attribute)
     and kw.value.attr == "SafeLoader"] *)
Definition is_safe_loader_kw (kw : keyword) : bool :=
  match kw_arg kw with
  | Some a => Str.in_tuple a ["Loader"]
  | None => false
  end &&
  match kw_value kw with
  | Attribute _ attr _ => String.eqb attr "SafeLoader"
  | _ => false
  end.

(** [has_safe = False; for kw in node.keywords: if ...: has_safe = True] *)
Definition yaml_has_safe (keywords : list keyword) : bool :=
  fold_left (fun has_safe kw => if is_safe_loader_kw kw then true else has_safe)
            keywords false.

Definition YAMLVisitor_visit_Call (n : node) (issues : issues_t)
  : result issues_t :=
  match n with
  | Call (Attribute (Name id _) attr _) _ keywords _ =>
      if String.eqb id "yaml" && String.eqb attr "load" then
        let has_safe := yaml_has_safe keywords in
        if negb has_safe then
          lineno <- get_lineno n ;;
          Ok (issues ++ [yaml_message lineno])
        else Ok issues
      else Ok issues
  | _ => Ok issues
  end.

Fixpoint YAMLVisitor (n : node) (issues : issues_t) {struct n}
  : result issues_t :=
  match n with
  | Call _ _ _ _ =>
      issues <- YAMLVisitor_visit_Call n issues ;;
      generic_visit YAMLVisitor n issues
  | _ => generic_visit YAMLVisitor n issues
  end.

Definition check_yaml_load_usage (tree : node) : result (list string) :=
  YAMLVisitor tree [].

(** ** check_hardcoded_secrets *)

Definition secret_keywords : list string :=
  ["key"; "secret"; "password"; "token"; "passwd"].

Definition secrets_message (lineno : Z) (id : string) : string :=
  "[Security] Line " ++ Str.str_int lineno ++ ": Assignment to '" ++ id ++
  "' with a literal string. " ++
  "Hard-coded secret detected. " ++
  "Recommendation: Store secrets in environment variables or a secrets manager.".

(** [isinstance(node.value, ast.Constant) and isinstance(node.value.value, str)] *)
Definition is_str_literal (n : node) : bool :=
  match n with
  | Constant (CStr _) _ => true
  | _ => false
  end.

(** The body of [SecretsVisitor.visit_Assign] between the length test and
    [self.generic_visit], for [target = node.targets[0]]. *)
Definition SecretsVisitor_visit_Assign (n target value : node) (issues : issues_t)
  : result issues_t :=
  match target with
  | Name id _ =>
      if is_str_literal value then
        let var_name := Str.lower id in
        if existsb (fun keyword => Str.contains keyword var_name) secret_keywords
        then
          lineno <- get_lineno n ;;
          Ok (issues ++ [secrets_message lineno id])
        else Ok issues
      else Ok issues
  | _ => Ok issues
  end.

Fixpoint SecretsVisitor (n : node) (issues : issues_t) {struct n}
  : result issues_t :=
  match n with
  | Assign targets value _ =>
      match targets with
      | [target] =>
          issues <- SecretsVisitor_visit_Assign n target value issues ;;
          generic_visit SecretsVisitor n issues
      | _ => Ok issues   (* len(node.targets) != 1: return *)
      end
  | _ => generic_visit SecretsVisitor n issues
  end.

Definition check_hardcoded_secrets (tree : node) : result (list string) :=
  SecretsVisitor tree [].

(** ** check_weak_hashing_usage *)

Definition weak_hash_message (lineno : Z) (attr : string) : string :=
  "[Security] Line " ++ Str.str_int lineno ++ ": Use of hashlib." ++ attr ++ "(). " ++
  Str.upper attr ++ " is considered weak. " ++
  "Recommendation: Use hashlib.sha256 or stronger.".

Definition HashVisitor_visit_Attribute (n : node) (issues : issues_t)
  : result issues_t :=
  match n with
  | Attribute (Name id _) attr _ =>
      if String.eqb id "hashlib" && Str.in_tuple attr ["md5"; "sha1"] then
        lineno <- get_lineno n ;;
        Ok (issues ++ [weak_hash_message lineno attr])
      else Ok issues
  | _ => Ok issues
  end.

Fixpoint HashVisitor (n : node) (issues : issues_t) {struct n}
  : result issues_t :=
  match n with
  | Attribute _ _ _ =>
      issues <- HashVisitor_visit_Attribute n issues ;;
      generic_visit HashVisitor n issues
  | _ => generic_visit HashVisitor n issues
  end.

Definition check_weak_hashing_usage (tree : node) : result (list string) :=
  HashVisitor tree [].

(** ** run_all_checks *)

Definition checks : list (node -> result (list string)) :=
  [ check_exec_eval_usage;
    check_python_json_logger_import;
    check_subprocess_usage;
    check_pickle_usage;
    check_yaml_load_usage;
    check_hardcoded_secrets;
    check_weak_hashing_usage ].

(** [for check in checks: all_issues.extend(check(tree))] *)
Definition run_checks (checks : list (node -> result (list string)))
    (tree : node) : result (list string) :=
  for_each (fun check all_issues =>
              found <- check tree ;;
              Ok (all_issues ++ found))
           checks [].

Definition run_all_checks (tree : node) : result (list string) :=
  run_checks checks tree.

(** ** Sample trees *)

Module Samples.

Local Open Scope Z_scope.

Definition name (id : string) (l : Z) : node := Name id (Some l).
Definition str (s : string) (l : Z) : node := Constant (CStr s) (Some l).
Definition expr_stmt (e : node) (l : Z) : node := Other [e] (Some l).
Definition module_ (body : list node) : node := Other body None.

(** [exec(code)] on line 1, [pickle.loads(blob)] on line 2,
    [subprocess.run(cmd, shell=True)] on line 3 *)
Definition mixed : node :=
  module_
    [ expr_stmt (Call (name "exec" 1) [name "code" 1] [] (Some 1)) 1;
      expr_stmt (Call (Attribute (name "pickle" 2) "loads" (Some 2))
                      [name "blob" 2] [] (Some 2)) 2;
      expr_stmt (Call (Attribute (name "subprocess" 3) "run" (Some 3))
                      [name "cmd" 3]
                      [Keyword (Some "shell") (Constant (CBool true) (Some 3))]
                      (Some 3)) 3 ].

(** [yaml.load(data)] on line 1 and
    [yaml.load(data, Loader=yaml.SafeLoader)] on line 2 *)
Definition yaml_loads : node :=
  module_
    [ expr_stmt (Call (Attribute (name "yaml" 1) "load" (Some 1))
                      [name "data" 1] [] (Some 1)) 1;
      expr_stmt (Call (Attribute (name "yaml" 2) "load" (Some 2))
                      [name "data" 2]
                      [Keyword (Some "Loader")
                               (Attribute (name "yaml" 2) "SafeLoader" (Some 2))]
                      (Some 2)) 2 ].

(** [yaml.load(data, yaml.SafeLoader)] *)
Definition yaml_positional : node :=
  module_
    [ expr_stmt (Call (Attribute (name "yaml" 1) "load" (Some 1))
                      [name "data" 1;
                       Attribute (name "yaml" 1) "SafeLoader" (Some 1)]
                      [] (Some 1)) 1 ].

(** [yaml.load(data, Loader=anything.SafeLoader)] *)
Definition yaml_other_object : node :=
  module_
    [ expr_stmt (Call (Attribute (name "yaml" 1) "load" (Some 1))
                      [name "data" 1]
                      [Keyword (Some "Loader")
                               (Attribute (name "anything" 1) "SafeLoader" (Some 1))]
                      (Some 1)) 1 ].

(** [import subprocess as sp], [sp.run(cmd, shell=True)],
    [import pickle as p], [p.loads(blob)],
    [import yaml as y], [y.load(data)],
    [import hashlib as h], [h.md5(blob)] *)
Definition aliased : node :=
  module_
    [ Import [Alias "subprocess" (Some "sp")] (Some 1);
      expr_stmt (Call (Attribute (name "sp" 2) "run" (Some 2))
                      [name "cmd" 2]
                      [Keyword (Some "shell") (Constant (CBool true) (Some 2))]
                      (Some 2)) 2;
      Import [Alias "pickle" (Some "p")] (Some 3);
      expr_stmt (Call (Attribute (name "p" 4) "loads" (Some 4))
                      [name "blob" 4] [] (Some 4)) 4;
      Import [Alias "yaml" (Some "y")] (Some 5);
      expr_stmt (Call (Attribute (name "y" 6) "load" (Some 6))
                      [name "data" 6] [] (Some 6)) 6;
      Import [Alias "hashlib" (Some "h")] (Some 7);
      expr_stmt (Call (Attribute (name "h" 8) "md5" (Some 8))
                      [name "blob" 8] [] (Some 8)) 8 ].

(** [API_KEY = 'abc'], [a = b = 'x'], [self.password = 'p'],
    [count = 3], [name = 'bob'] *)
Definition assignments : node :=
  module_
    [ Assign [name "API_KEY" 1] (str "abc" 1) (Some 1);
      Assign [name "a" 2; name "b" 2] (str "x" 2) (Some 2);
      Assign [Attribute (name "self" 3) "password" (Some 3)] (str "p" 3) (Some 3);
      Assign [name "count" 4] (Constant (CInt 3) (Some 4)) (Some 4);
      Assign [name "name" 5] (str "bob" 5) (Some 5) ].

(** [import os, python_json_logger.jsonlogger],
    [from python_json_logger import JsonFormatter], [from . import y],
    [import python_json_logger_extra] *)
Definition imports : node :=
  module_
    [ Import [Alias "os" None; Alias "python_json_logger.jsonlogger" None] (Some 1);
      ImportFrom (Some "python_json_logger") [Alias "JsonFormatter" None] (Some 2);
      ImportFrom None [Alias "y" None] (Some 3);
      Import [Alias "python_json_logger_extra" None] (Some 4) ].

(** [exec(code)] on line 1, followed by a statement [pickle.loads(blob)]
    built by hand and spliced in without [ast.fix_missing_locations]: its
    nodes have no [lineno]. *)
Definition unlocated : node :=
  module_
    [ expr_stmt (Call (name "exec" 1) [name "code" 1] [] (Some 1)) 1;
      Other [Call (Attribute (Name "pickle" None) "loads" None)
                  [Name "blob" None] [] None] None ].

(** [digest = hashlib.md5(blob)] on line 1, [algorithm = hashlib.sha1] on
    line 2 (an access that is not called), [hashlib.sha256(blob)] on line 3;
    the targets are built by hand and have no [lineno]. *)
Definition hashes : node :=
  module_
    [ Assign [Name "digest" None]
             (Call (Attribute (name "hashlib" 1) "md5" (Some 1))
                   [name "blob" 1] [] (Some 1)) (Some 1);
      Assign [Name "algorithm" None]
             (Attribute (name "hashlib" 2) "sha1" (Some 2)) (Some 2);
      expr_stmt (Call (Attribute (name "hashlib" 3) "sha256" (Some 3))
                      [name "blob" 3] [] (Some 3)) 3 ].

(** [def f(): import python_json_logger] on lines 1-2, then
    [import python_json_logger] on line 3. *)
Definition nested_import_body : list node :=
  [ Other [Other [] None;
           Import [Alias "python_json_logger" None] (Some 2)] (Some 1);
    Import [Alias "python_json_logger" None] (Some 3) ].

Definition nested_import : node := module_ nested_import_body.

End Samples.

(** ** The nodes of a tree

    [nodes t] lists [t] and every node below it in the order a
    [NodeVisitor] reaches them (parent first, children in field order). *)

Fixpoint nodes (n : node) : list node :=
  n :: match n with
       | Name _ _ | Constant _ _ | Import _ _ | ImportFrom _ _ _ => []
       | Attribute value _ _ => nodes value
       | Call func args keywords _ =>
           nodes func ++ flat_map nodes args ++
           flat_map (fun kw => nodes (kw_value kw)) keywords
       | Assign targets value _ => flat_map nodes targets ++ nodes value
       | Other children _ => flat_map nodes children
       end.

(** Statements and expressions produced by the parser carry a [lineno];
    nodes of other classes ([Module], [arguments], ...) need not. *)
Definition has_location (n : node) : bool :=
  match n with
  | Other _ _ => true
  | _ => match lineno_attr n with Some _ => true | None => false end
  end.

(** Every statement and expression of the tree carries its line. *)
Definition located (tree : node) : bool := forallb has_location (nodes tree).

(** [node.lineno] where it is known to exist. *)
Definition line_of (n : node) : Z :=
  match lineno_attr n with
  | Some l => l
  | None => 0%Z
  end.

(** ** The vocabulary of the properties *)

(** The nodes a visitor reaches, in the order it reaches them, when it
    goes below a node only where [descend] holds. *)
Fixpoint visited (descend : node -> bool) (n : node) : list node :=
  n :: if descend n then
         match n with
         | Name _ _ | Constant _ _ | Import _ _ | ImportFrom _ _ _ => []
         | Attribute value _ _ => visited descend value
         | Call func args keywords _ =>
             visited descend func ++ flat_map (visited descend) args ++
             flat_map (fun kw => visited descend (kw_value kw)) keywords
         | Assign targets value _ =>
             flat_map (visited descend) targets ++ visited descend value
         | Other children _ => flat_map (visited descend) children
         end
       else [].

(** A [Call] whose [func] is a plain [Name] with id [exec] or [eval]. *)
Definition is_exec_eval_call (n : node) : bool :=
  match n with
  | Call (Name id _) _ _ _ => String.eqb id "exec" || String.eqb id "eval"
  | _ => false
  end.

(** [node.func.id] of such a call. *)
Definition callee_name (n : node) : string :=
  match n with
  | Call (Name id _) _ _ _ => id
  | _ => ""
  end.

(** The diagnostic of [check_exec_eval_usage] for the call [n]. *)
Definition exec_eval_render (n : node) : string :=
  exec_eval_message (line_of n) (callee_name n).

(** [module.member(...)]: a [Call] whose [func] is an attribute access on
    the bare name [module], with the attribute among [members]. *)
Definition is_member_call (module : string) (members : list string) (n : node)
  : bool :=
  match n with
  | Call (Attribute (Name id _) attr _) _ _ _ =>
      String.eqb id module && Str.in_tuple attr members
  | _ => false
  end.

(** [node.keywords] of a call. *)
Definition call_keywords (n : node) : list keyword :=
  match n with
  | Call _ _ keywords _ => keywords
  | _ => []
  end.

(** [node.func.attr] of a call through an attribute access. *)
Definition callee_attr (n : node) : string :=
  match n with
  | Call (Attribute _ attr _) _ _ _ => attr
  | _ => ""
  end.

(** A keyword argument [shell=True], with [True] the literal constant. *)
Definition is_shell_True (kw : keyword) : bool :=
  arg_is kw "shell" && is_literal_True (kw_value kw).

(** The members of [subprocess] the rule looks for. *)
Definition subprocess_members : list string :=
  ["run"; "Popen"; "call"; "check_output"].

(** The diagnostics of one node: one per [shell=True] keyword of a
    [subprocess] call. *)
Definition subprocess_diags (n : node) : list string :=
  if is_member_call "subprocess" subprocess_members n then
    map (fun _ => subprocess_message (line_of n) (callee_attr n))
        (filter is_shell_True (call_keywords n))
  else [].

(** The diagnostic of [check_pickle_usage] for the call [n]. *)
Definition pickle_render (n : node) : string :=
  pickle_message (line_of n) (callee_attr n).

(** A keyword argument named [Loader] whose value is an attribute access
    ending in [SafeLoader], on whatever object. *)
Definition is_Loader_SafeLoader (kw : keyword) : bool :=
  match kw with
  | Keyword (Some a) (Attribute _ attr _) =>
      String.eqb a "Loader" && String.eqb attr "SafeLoader"
  | _ => false
  end.

(** A call [yaml.load(...)] with no such keyword. *)
Definition is_unsafe_yaml_load (n : node) : bool :=
  is_member_call "yaml" ["load"] n &&
  negb (existsb is_Loader_SafeLoader (call_keywords n)).

(** The diagnostic of [check_yaml_load_usage] for the call [n]. *)
Definition yaml_render (n : node) : string := yaml_message (line_of n).

(** [hashlib.md5] or [hashlib.sha1]: an attribute access on the bare name. *)
Definition is_weak_hash_access (n : node) : bool :=
  match n with
  | Attribute (Name id _) attr _ =>
      String.eqb id "hashlib" && Str.in_tuple attr ["md5"; "sha1"]
  | _ => false
  end.

(** [node.attr] of an attribute access. *)
Definition attr_of (n : node) : string :=
  match n with
  | Attribute _ attr _ => attr
  | _ => ""
  end.

(** The diagnostic of [check_weak_hashing_usage] for the access [n]. *)
Definition weak_hash_render (n : node) : string :=
  weak_hash_message (line_of n) (attr_of n).

(** The bare name an attribute is accessed on, for [name.attr]. *)
Definition receiver (n : node) : option string :=
  match n with
  | Attribute (Name id _) _ _ => Some id
  | _ => None
  end.

(** The checks that match [module.member] and the module each looks for. *)
Definition attribute_matchers : list (string * (node -> result (list string))) :=
  [ ("subprocess", check_subprocess_usage);
    ("pickle", check_pickle_usage);
    ("yaml", check_yaml_load_usage);
    ("hashlib", check_weak_hashing_usage) ].

(** The child nodes of a node, a keyword counting for its value. *)
Definition children (n : node) : list node :=
  match n with
  | Name _ _ | Constant _ _ | Import _ _ | ImportFrom _ _ _ => []
  | Attribute value _ _ => [value]
  | Call func args keywords _ => func :: args ++ map kw_value keywords
  | Assign targets value _ => targets ++ [value]
  | Other cs _ => cs
  end.

(** The statement classes of the model; every other class modelled by name
    is an expression class. *)
Definition is_statement (n : node) : bool :=
  match n with
  | Assign _ _ _ | Import _ _ | ImportFrom _ _ _ => true
  | _ => false
  end.

(** A subtree that holds no statement, as every expression of the Python
    grammar does. *)
Definition expression_tree (e : node) : bool :=
  forallb (fun n => negb (is_statement n)) (nodes e).

(** The grammar of [ast]: the child nodes of an expression, and those of a
    simple statement, are expressions.  Trees from [ast.parse] satisfy it. *)
Definition grammatical (tree : node) : bool :=
  forallb (fun n => match n with
                    | Other _ _ => true
                    | _ => forallb expression_tree (children n)
                    end) (nodes tree).

(** An assignment with exactly one target, a plain name, whose value is a
    string literal and whose target name, lowercased, contains one of the
    secret-like words. *)
Definition is_secret_assignment (n : node) : bool :=
  match n with
  | Assign [Name id _] (Constant (CStr _) _) _ =>
      existsb (fun word => Str.contains word (Str.lower id))
              ["key"; "secret"; "password"; "token"; "passwd"]
  | _ => false
  end.

(** [node.targets[0].id] of a single-target assignment to a name. *)
Definition target_id (n : node) : string :=
  match n with
  | Assign [Name id _] _ _ => id
  | _ => ""
  end.

(** The diagnostic of [check_hardcoded_secrets] for the assignment [n]. *)
Definition secrets_render (n : node) : string :=
  secrets_message (line_of n) (target_id n).

(** What [SecretsVisitor] does at a node before it descends. *)
Definition SecretsVisitor_method (n : node) (issues : issues_t) : result issues_t :=
  match n with
  | Assign [target] value _ => SecretsVisitor_visit_Assign n target value issues
  | _ => Ok issues
  end.

(** [false] where [visit_Assign] returns before [self.generic_visit]. *)
Definition SecretsVisitor_descend (n : node) : bool :=
  match n with
  | Assign [_] _ _ => true
  | Assign _ _ _ => false
  | _ => true
  end.

(** The node an object of the walk is, if it is one. *)
Definition as_node (x : AST) : list node :=
  match x with
  | ANode n => [n]
  | _ => []
  end.

(** The nodes at and below an object the walk holds in its queue. *)
Definition ast_nodes (x : AST) : list node :=
  match x with
  | ANode n => nodes n
  | AKeyword kw => nodes (kw_value kw)
  | AAlias _ => []
  end.

(** The nodes that [ast.walk(tree)] yields, in the order it yields them. *)
Definition walk_nodes (tree : node) : list node := flat_map as_node (walk tree).

(** The diagnostics of one node: one per matching alias of an [Import],
    one for an [ImportFrom] whose module matches, all at the statement's
    line. *)
Definition json_logger_diags (n : node) : list string :=
  match n with
  | Import names _ =>
      map (fun _ => json_logger_import_message (line_of n))
          (filter (fun a => is_json_logger (alias_name a)) names)
  | ImportFrom module _ _ =>
      if is_json_logger (module_or_empty module)
      then [json_logger_from_message (line_of n)] else []
  | _ => []
  end.

(** The fixed reference tags a diagnostic may carry after its category. *)
Definition code_tags : list string := [""; "[CVE-2025-3248]"; "[CVE-2025-27607]"].

(** An [Import] with a matching alias, or an [ImportFrom] of a matching
    module. *)
Definition is_json_logger_import (n : node) : bool :=
  match n with
  | Import names _ => existsb (fun a => is_json_logger (alias_name a)) names
  | ImportFrom module _ _ => is_json_logger (module_or_empty module)
  | _ => false
  end.

(** The node is one at which some rule fires. *)
Definition triggers (n : node) : bool :=
  is_exec_eval_call n
  || is_json_logger_import n
  || (is_member_call "subprocess" subprocess_members n
      && existsb is_shell_True (call_keywords n))
  || is_member_call "pickle" ["load"; "loads"] n
  || is_unsafe_yaml_load n
  || is_secret_assignment n
  || is_weak_hash_access n.

(** ** The rules as data

    Every rule does the same thing at a node it reaches: where it fires it
    reads [node.lineno] and appends its diagnostics for that line.  A rule
    is then what makes it fire, the diagnostics it appends, and the nodes
    its traversal reaches, in order. *)

(** [node.lineno] is present. *)
Definition has_lineno (n : node) : bool :=
  match lineno_attr n with
  | Some _ => true
  | None => false
  end.

Definition rule_method (fires : node -> bool) (diags : Z -> node -> list string)
    (n : node) (issues : issues_t) : result issues_t :=
  if fires n then
    lineno <- get_lineno n ;;
    Ok (issues ++ diags lineno n)
  else Ok issues.

Record rule : Type := Rule {
  rule_fires : node -> bool;
  rule_diags : Z -> node -> list string;
  rule_reach : node -> list node
}.

Definition run_rule (r : rule) (tree : node) : result (list string) :=
  for_each (rule_method (rule_fires r) (rule_diags r)) (rule_reach r tree) [].

(** A [subprocess] call that carries [shell=True]. *)
Definition fires_subprocess (n : node) : bool :=
  is_member_call "subprocess" subprocess_members n
  && existsb is_shell_True (call_keywords n).

(** The import diagnostics of a node, for the line [lineno]. *)
Definition json_logger_diags_at (lineno : Z) (n : node) : list string :=
  match n with
  | Import names _ =>
      map (fun _ => json_logger_import_message lineno)
          (filter (fun a => is_json_logger (alias_name a)) names)
  | ImportFrom _ _ _ => [json_logger_from_message lineno]
  | _ => []
  end.

Definition exec_eval_rule : rule :=
  Rule is_exec_eval_call
       (fun lineno n => [exec_eval_message lineno (callee_name n)])
       nodes.

Definition json_logger_rule : rule :=
  Rule is_json_logger_import json_logger_diags_at walk_nodes.

Definition subprocess_rule : rule :=
  Rule fires_subprocess
       (fun lineno n =>
          map (fun _ => subprocess_message lineno (callee_attr n))
              (filter is_shell_True (call_keywords n)))
       nodes.

Definition pickle_rule : rule :=
  Rule (is_member_call "pickle" ["load"; "loads"])
       (fun lineno n => [pickle_message lineno (callee_attr n)])
       nodes.

Definition yaml_rule : rule :=
  Rule is_unsafe_yaml_load (fun lineno _ => [yaml_message lineno]) nodes.

Definition secrets_rule : rule :=
  Rule is_secret_assignment
       (fun lineno n => [secrets_message lineno (target_id n)])
       (visited SecretsVisitor_descend).

Definition weak_hash_rule : rule :=
  Rule is_weak_hash_access
       (fun lineno n => [weak_hash_message lineno (attr_of n)])
       nodes.

(** The rules in the order of the registry of [run_all_checks]. *)
Definition rules : list rule :=
  [ exec_eval_rule; json_logger_rule; subprocess_rule; pickle_rule;
    yaml_rule; secrets_rule; weak_hash_rule ].

(** What a rule reports on a tree when every line it needs is there. *)
Definition rule_output (r : rule) (tree : node) : list string :=
  flat_map (fun n => if rule_fires r n then rule_diags r (line_of n) n else [])
           (rule_reach r tree).

(** Every node the rule reaches and fires at carries its line. *)
Definition lined (r : rule) (tree : node) : bool :=
  forallb (fun n => negb (rule_fires r n) || has_lineno n) (rule_reach r tree).

(** The nodes below the statements of a body, in the order the walk yields
    them once it is done with the statements themselves. *)
Definition walk_below (body : list node) : list node :=
  flat_map as_node (walk_queue (flat_map iter_child_nodes (map ANode body))).

(** The checks that traverse with a [NodeVisitor]. *)
Definition visitor_checks : list (node -> result (list string)) :=
  [ check_exec_eval_usage; check_subprocess_usage; check_pickle_usage;
    check_yaml_load_usage; check_hardcoded_secrets; check_weak_hashing_usage ].

(** [for r in results: all_issues.extend(r)], stopping at an exception. *)
Definition collect (results : list (result (list string))) : result (list string) :=
  for_each (fun r all_issues => found <- r ;; Ok (all_issues ++ found)) results [].

(** ** Induction over trees

    The induction principle of a tree whose nodes hold lists of nodes: the
    hypothesis is available for every child. *)

Section NodeInd.
Variable P : node -> Prop.
Hypothesis HName : forall id l, P (Name id l).
Hypothesis HConstant : forall c l, P (Constant c l).
Hypothesis HAttribute : forall v a l, P v -> P (Attribute v a l).
Hypothesis HCall : forall f args kws l,
    P f -> Forall P args -> Forall (fun kw => P (kw_value kw)) kws ->
    P (Call f args kws l).
Hypothesis HAssign : forall ts v l, Forall P ts -> P v -> P (Assign ts v l).
Hypothesis HImport : forall names l, P (Import names l).
Hypothesis HImportFrom : forall m names l, P (ImportFrom m names l).
Hypothesis HOther : forall cs l, Forall P cs -> P (Other cs l).

Fixpoint node_ind (n : node) : P n :=
  let fix all (l : list node) : Forall P l :=
    match l with
    | [] => Forall_nil _
    | x :: l' => Forall_cons _ (node_ind x) (all l')
    end in
  let fix all_kw (l : list keyword) : Forall (fun kw => P (kw_value kw)) l :=
    match l with
    | [] => Forall_nil _
    | Keyword a v :: l' =>
        Forall_cons (P := fun kw => P (kw_value kw)) (Keyword a v)
                    (node_ind v) (all_kw l')
    end in
  match n with
  | Name id l => HName id l
  | Constant c l => HConstant c l
  | Attribute v a l => HAttribute a l (node_ind v)
  | Call f args kws l => HCall l (node_ind f) (all args) (all_kw kws)
  | Assign ts v l => HAssign l (all ts) (node_ind v)
  | Import names l => HImport names l
  | ImportFrom m names l => HImportFrom m names l
  | Other cs l => HOther l (all cs)
  end.
End NodeInd.

(** ** Reasoning about the loops and the visitors *)

Lemma for_each_app {X S} (body : X -> S -> result S) (l1 l2 : list X) (s : S) :
  for_each body (l1 ++ l2) s = (s' <- for_each body l1 s ;; for_each body l2 s').
Proof.
  revert s; induction l1 as [|x l1 IH]; intros s; simpl; [reflexivity|].
  destruct (body x s); simpl; [apply IH | reflexivity].
Qed.

(** A loop whose body appends [emit x] to the list it threads. *)
Lemma for_each_emit {X} (body : X -> issues_t -> result issues_t)
    (emit : X -> list string) (xs : list X) :
  (forall x, In x xs -> forall issues, body x issues = Ok (issues ++ emit x)) ->
  forall issues, for_each body xs issues = Ok (issues ++ flat_map emit xs).
Proof.
  induction xs as [|x xs IH]; intros H issues; simpl.
  - rewrite app_nil_r; reflexivity.
  - rewrite (H x (or_introl eq_refl)); simpl.
    rewrite IH by (intros y Hy; apply H; right; exact Hy).
    rewrite <- app_assoc; reflexivity.
Qed.

Lemma flat_map_flat_map {X Y Z} (f : X -> list Y) (g : Y -> list Z) (l : list X) :
  flat_map g (flat_map f l) = flat_map (fun x => flat_map g (f x)) l.
Proof.
  induction l as [|x l IH]; simpl; [reflexivity|].
  rewrite flat_map_app, IH; reflexivity.
Qed.

Lemma flat_map_select {X Y} (p : X -> bool) (r : X -> Y) (l : list X) :
  flat_map (fun x => if p x then [r x] else []) l = map r (filter p l).
Proof.
  induction l as [|x l IH]; simpl; [reflexivity|].
  destruct (p x); simpl; rewrite IH; reflexivity.
Qed.

Lemma flat_map_nil {X Y} (f : X -> list Y) (l : list X) :
  (forall x, In x l -> f x = []) -> flat_map f l = [].
Proof.
  induction l as [|x l IH]; intros H; simpl; [reflexivity|].
  rewrite (H x (or_introl eq_refl)), IH; [reflexivity|].
  intros y Hy; apply H; right; exact Hy.
Qed.

Lemma nodes_self (n : node) : In n (nodes n).
Proof. destruct n; left; reflexivity. Qed.

(** A visitor whose one [visit_X] method runs [method] and then, unless it
    has returned early ([descend n = false]), [self.generic_visit(node)].
    Its run is the loop of [method] over the nodes it reaches. *)
Section Visitor.
Variable visit : node -> issues_t -> result issues_t.
Variable method : node -> issues_t -> result issues_t.
Variable descend : node -> bool.
Hypothesis visit_eq : forall n issues,
    visit n issues =
    (issues <- method n issues ;;
     if descend n then generic_visit visit n issues else Ok issues).

Lemma for_each_flat_map {X} (f : X -> node) (xs : list X) :
  Forall (fun x => forall issues,
              visit (f x) issues = for_each method (visited descend (f x)) issues) xs ->
  forall issues,
    for_each (fun x => visit (f x)) xs issues =
    for_each method (flat_map (fun x => visited descend (f x)) xs) issues.
Proof.
  induction 1 as [|x xs Hx _ IH]; intros issues; [reflexivity|].
  cbn [for_each flat_map]. rewrite for_each_app, Hx.
  destruct (for_each method (visited descend (f x)) issues); [apply IH | reflexivity].
Qed.

Lemma for_each_flat_map_nodes (xs : list node) :
  Forall (fun x => forall issues,
              visit x issues = for_each method (visited descend x) issues) xs ->
  forall issues,
    for_each visit xs issues = for_each method (flat_map (visited descend) xs) issues.
Proof. exact (for_each_flat_map (fun a => a) (xs := xs)). Qed.

Lemma visit_for_each (t : node) (issues : issues_t) :
  visit t issues = for_each method (visited descend t) issues.
Proof.
  revert issues. induction t using node_ind; intros issues; rewrite visit_eq;
    cbn [visited for_each];
    (destruct (method _ issues) as [issues'|e]; [|reflexivity]); cbn [bind];
    (destruct (descend _); [|reflexivity]); cbn [generic_visit].
  - reflexivity.
  - reflexivity.
  - apply IHt.
  - rewrite for_each_app, IHt.
    destruct (for_each method (visited descend t) issues') as [i1|]; [|reflexivity].
    cbn [bind]. rewrite for_each_app, (for_each_flat_map_nodes H).
    destruct (for_each method (flat_map (visited descend) args) i1) as [i2|]; [|reflexivity].
    cbn [bind]. apply (for_each_flat_map kw_value H0).
  - rewrite for_each_app, (for_each_flat_map_nodes H).
    destruct (for_each method (flat_map (visited descend) ts) issues') as [i1|]; [|reflexivity].
    cbn [bind]. apply IHt.
  - reflexivity.
  - reflexivity.
  - apply (for_each_flat_map_nodes H).
Qed.
End Visitor.

Lemma flat_map_Forall_ext {X Y} (f g : X -> list Y) (l : list X) :
  Forall (fun x => f x = g x) l -> flat_map f l = flat_map g l.
Proof.
  induction 1 as [|x l Hx _ IH]; [reflexivity|].
  cbn [flat_map]; rewrite Hx, IH; reflexivity.
Qed.

Lemma visited_all (t : node) : visited (fun _ => true) t = nodes t.
Proof.
  induction t using node_ind; cbn [visited nodes];
    repeat match goal with
           | IH : visited _ _ = _ |- _ => rewrite IH; clear IH
           | H : Forall _ _ |- _ => rewrite (flat_map_Forall_ext _ _ H); clear H
           end;
    reflexivity.
Qed.

(** A visitor that never returns early runs its method over every node. *)
Lemma visit_nodes (visit method : node -> issues_t -> result issues_t) :
  (forall n issues,
      visit n issues = (issues <- method n issues ;; generic_visit visit n issues)) ->
  forall t issues, visit t issues = for_each method (nodes t) issues.
Proof.
  intros Heq t issues. rewrite <- visited_all.
  apply visit_for_each. intros n issues'. apply Heq.
Qed.

Lemma visit_emit (visit method : node -> issues_t -> result issues_t)
    (emit : node -> list string) :
  (forall n issues,
      visit n issues = (issues <- method n issues ;; generic_visit visit n issues)) ->
  forall t,
    (forall n, In n (nodes t) ->
               forall issues, method n issues = Ok (issues ++ emit n)) ->
    forall issues, visit t issues = Ok (issues ++ flat_map emit (nodes t)).
Proof.
  intros Heq t Hm issues. rewrite (@visit_nodes visit method Heq). apply for_each_emit, Hm.
Qed.

Lemma located_In (t n : node) :
  located t = true -> In n (nodes t) -> has_location n = true.
Proof. unfold located; rewrite forallb_forall; intros H Hin; apply H, Hin. Qed.

Lemma get_lineno_located (n : node) :
  has_location n = true ->
  match n with Other _ _ => True | _ => get_lineno n = Ok (line_of n) end.
Proof.
  unfold has_location, get_lineno, line_of.
  destruct n; simpl; try exact (fun _ => I);
    destruct lineno; intros H; try reflexivity; discriminate H.
Qed.

(** ** check_exec_eval_usage: one diagnostic per direct exec/eval call *)

Lemma ExecEvalVisitor_eq (n : node) (issues : issues_t) :
  ExecEvalVisitor n issues =
  (issues <- ExecEvalVisitor_visit_Call n issues ;;
   generic_visit ExecEvalVisitor n issues).
Proof. destruct n; reflexivity. Qed.

Lemma ExecEvalVisitor_visit_Call_located (n : node) (issues : issues_t) :
  has_location n = true ->
  ExecEvalVisitor_visit_Call n issues =
  Ok (issues ++ (if is_exec_eval_call n then [exec_eval_render n] else [])).
Proof.
  intros Hloc. pose proof (get_lineno_located n Hloc) as Hl.
  destruct n as [| | |f args kws l| | | |]; simpl; rewrite ?app_nil_r; try reflexivity.
  destruct f; simpl; rewrite ?app_nil_r; try reflexivity.
  unfold Str.in_tuple; simpl; rewrite orb_false_r.
  destruct (String.eqb id "exec" || String.eqb id "eval"); simpl;
    rewrite ?app_nil_r; [|reflexivity].
  rewrite Hl; reflexivity.
Qed.

(** C3: on a located tree [check_exec_eval_usage] returns, in visiting
    order, exactly one diagnostic for every [Call] node whose function is
    the plain name [exec] or [eval] and nothing for any other node; the
    diagnostic starts with the fixed tag [[Security][CVE-2025-3248]]
    followed by the line of that node, and a call through an attribute
    access is never such a node. *)
Theorem check_exec_eval_usage_spec (tree : node) :
  located tree = true ->
  check_exec_eval_usage tree =
    Ok (map exec_eval_render (filter is_exec_eval_call (nodes tree)))
  /\ (forall n, exists rest,
         exec_eval_render n =
         ("[Security][CVE-2025-3248] Line " ++ Str.str_int (line_of n) ++ ": " ++ rest)%string)
  /\ (forall v a l args kws l',
         is_exec_eval_call (Call (Attribute v a l) args kws l') = false).
Proof.
  intros Hloc. split; [|split].
  - unfold check_exec_eval_usage.
    rewrite (@visit_emit ExecEvalVisitor ExecEvalVisitor_visit_Call
               (fun n => if is_exec_eval_call n then [exec_eval_render n] else [])
               ExecEvalVisitor_eq tree).
    + rewrite flat_map_select; reflexivity.
    + intros n Hin issues. apply ExecEvalVisitor_visit_Call_located.
      exact (located_In _ _ Hloc Hin).
  - intros n. eexists. unfold exec_eval_render, exec_eval_message. reflexivity.
  - reflexivity.
Qed.

Lemma check_exec_eval_usage_spec_witness :
  located Samples.mixed = true /\
  check_exec_eval_usage Samples.mixed =
    Ok (map exec_eval_render (filter is_exec_eval_call (nodes Samples.mixed))).
Proof.
  split; [reflexivity|].
  exact (proj1 (check_exec_eval_usage_spec Samples.mixed eq_refl)).
Defined.

(** ** check_subprocess_usage: shell=True on a subprocess call *)

Lemma SubprocessVisitor_eq (n : node) (issues : issues_t) :
  SubprocessVisitor n issues =
  (issues <- SubprocessVisitor_visit_Call n issues ;;
   generic_visit SubprocessVisitor n issues).
Proof. destruct n; reflexivity. Qed.

Lemma SubprocessVisitor_visit_Call_located (n : node) (issues : issues_t) :
  has_location n = true ->
  SubprocessVisitor_visit_Call n issues = Ok (issues ++ subprocess_diags n).
Proof.
  intros Hloc. pose proof (get_lineno_located n Hloc) as Hl.
  unfold subprocess_diags.
  destruct n as [| | |f args kws l| | | |]; simpl; rewrite ?app_nil_r; try reflexivity.
  destruct f as [| |v attr l'| | | | |]; simpl; rewrite ?app_nil_r; try reflexivity.
  destruct v; simpl; rewrite ?app_nil_r; try reflexivity.
  destruct (String.eqb id "subprocess" && _);
    simpl; rewrite ?app_nil_r; [|reflexivity].
  rewrite <- flat_map_select.
  apply for_each_emit. intros kw _ issues'.
  unfold is_shell_True.
  destruct (arg_is kw "shell"); simpl; rewrite ?app_nil_r; [|reflexivity].
  destruct (is_literal_True (kw_value kw)); simpl; rewrite ?app_nil_r; [|reflexivity].
  rewrite Hl; reflexivity.
Qed.

Lemma is_shell_True_iff (kw : keyword) :
  is_shell_True kw = true <->
  kw_arg kw = Some "shell" /\ exists l, kw_value kw = Constant (CBool true) l.
Proof.
  unfold is_shell_True, arg_is, is_literal_True.
  rewrite andb_true_iff. split.
  - intros [Ha Hv]. split.
    + destruct (kw_arg kw) as [a|]; [|discriminate].
      apply String.eqb_eq in Ha; subst; reflexivity.
    + destruct (kw_value kw) as [|c l| | | | | |]; try discriminate.
      destruct c as [|[|]| | | | |]; try discriminate.
      exists l; reflexivity.
  - intros [Ha [l Hv]]. rewrite Ha, Hv. split; reflexivity.
Qed.

(** C4: on a located tree the output of [check_subprocess_usage] is made of
    the diagnostics of its nodes, and a node has a diagnostic if and only if
    it is a call [subprocess.run/Popen/call/check_output] carrying a keyword
    named [shell] whose value is the literal [True]. *)
Theorem check_subprocess_usage_spec (tree : node) :
  located tree = true ->
  check_subprocess_usage tree = Ok (flat_map subprocess_diags (nodes tree))
  /\ (forall n,
        subprocess_diags n <> [] <->
        is_member_call "subprocess" ["run"; "Popen"; "call"; "check_output"] n = true
        /\ exists kw, In kw (call_keywords n) /\ kw_arg kw = Some "shell"
                      /\ exists l, kw_value kw = Constant (CBool true) l).
Proof.
  intros Hloc. split.
  - unfold check_subprocess_usage.
    rewrite (@visit_emit SubprocessVisitor SubprocessVisitor_visit_Call
               subprocess_diags SubprocessVisitor_eq tree); [reflexivity|].
    intros n Hin issues. apply SubprocessVisitor_visit_Call_located.
    exact (located_In _ _ Hloc Hin).
  - intros n. unfold subprocess_diags. fold subprocess_members.
    destruct (is_member_call "subprocess" subprocess_members n).
    + split.
      * intros Hne. split; [reflexivity|].
        destruct (filter is_shell_True (call_keywords n)) as [|kw rest] eqn:Hf;
          [exfalso; apply Hne; reflexivity|].
        assert (Hin : In kw (filter is_shell_True (call_keywords n)))
          by (rewrite Hf; left; reflexivity).
        apply filter_In in Hin. destruct Hin as [Hin Hs].
        apply is_shell_True_iff in Hs. exists kw. tauto.
      * intros [_ [kw [Hin [Ha Hv]]]] Hnil.
        assert (Hf : In kw (filter is_shell_True (call_keywords n))).
        { apply filter_In. split; [exact Hin|]. apply is_shell_True_iff. tauto. }
        destruct (filter is_shell_True (call_keywords n)); [exact Hf | discriminate Hnil].
    + split; [intros H; exfalso; apply H; reflexivity | intros [H _]; discriminate H].
Qed.

Lemma check_subprocess_usage_spec_witness :
  located Samples.mixed = true /\
  check_subprocess_usage Samples.mixed =
    Ok (flat_map subprocess_diags (nodes Samples.mixed)).
Proof.
  split; [reflexivity|].
  exact (proj1 (check_subprocess_usage_spec Samples.mixed eq_refl)).
Defined.

(** ** check_pickle_usage *)

Lemma PickleVisitor_eq (n : node) (issues : issues_t) :
  PickleVisitor n issues =
  (issues <- PickleVisitor_visit_Call n issues ;;
   generic_visit PickleVisitor n issues).
Proof. destruct n; reflexivity. Qed.

Lemma PickleVisitor_visit_Call_located (n : node) (issues : issues_t) :
  has_location n = true ->
  PickleVisitor_visit_Call n issues =
  Ok (issues ++ (if is_member_call "pickle" ["load"; "loads"] n
                 then [pickle_render n] else [])).
Proof.
  intros Hloc. pose proof (get_lineno_located n Hloc) as Hl.
  destruct n as [| | |f args kws l| | | |]; simpl; rewrite ?app_nil_r; try reflexivity.
  destruct f as [| |v attr l'| | | | |]; simpl; rewrite ?app_nil_r; try reflexivity.
  destruct v; simpl; rewrite ?app_nil_r; try reflexivity.
  destruct (String.eqb id "pickle" && _); simpl; rewrite ?app_nil_r; [|reflexivity].
  rewrite Hl; reflexivity.
Qed.

Lemma check_pickle_usage_located (tree : node) :
  located tree = true ->
  check_pickle_usage tree =
  Ok (map pickle_render
          (filter (is_member_call "pickle" ["load"; "loads"]) (nodes tree))).
Proof.
  intros Hloc. unfold check_pickle_usage.
  rewrite (@visit_emit PickleVisitor PickleVisitor_visit_Call
             (fun n => if is_member_call "pickle" ["load"; "loads"] n
                       then [pickle_render n] else [])
             PickleVisitor_eq tree).
  - rewrite flat_map_select; reflexivity.
  - intros n Hin issues. apply PickleVisitor_visit_Call_located.
    exact (located_In _ _ Hloc Hin).
Qed.

(** ** check_yaml_load_usage *)

Lemma is_safe_loader_kw_eq (kw : keyword) :
  is_safe_loader_kw kw = is_Loader_SafeLoader kw.
Proof.
  destruct kw as [[a|] v]; unfold is_safe_loader_kw, Str.in_tuple; simpl;
    [rewrite orb_false_r | reflexivity].
  destruct v; simpl; rewrite ?andb_false_r; reflexivity.
Qed.

Lemma yaml_has_safe_existsb (keywords : list keyword) :
  yaml_has_safe keywords = existsb is_Loader_SafeLoader keywords.
Proof.
  unfold yaml_has_safe.
  assert (H : forall b,
             fold_left (fun has_safe kw => if is_safe_loader_kw kw then true else has_safe)
                       keywords b
             = b || existsb is_Loader_SafeLoader keywords).
  { induction keywords as [|kw kws IH]; intros b; simpl.
    - rewrite orb_false_r; reflexivity.
    - rewrite IH, is_safe_loader_kw_eq.
      destruct (is_Loader_SafeLoader kw), b; reflexivity. }
  apply H.
Qed.

Lemma YAMLVisitor_eq (n : node) (issues : issues_t) :
  YAMLVisitor n issues =
  (issues <- YAMLVisitor_visit_Call n issues ;;
   generic_visit YAMLVisitor n issues).
Proof. destruct n; reflexivity. Qed.

(** What [visit_Call] does at a call [yaml.load(...)]: the positional
    arguments play no part. *)
Lemma YAMLVisitor_visit_Call_yaml_load
    (l1 l2 : option Z) (args : list node) (kws : list keyword) (l : Z)
    (issues : issues_t) :
  YAMLVisitor_visit_Call
    (Call (Attribute (Name "yaml" l1) "load" l2) args kws (Some l)) issues =
  Ok (issues ++ (if existsb is_Loader_SafeLoader kws then [] else [yaml_message l])).
Proof.
  cbn. rewrite yaml_has_safe_existsb.
  destruct (existsb is_Loader_SafeLoader kws); cbn; rewrite ?app_nil_r; reflexivity.
Qed.

Lemma YAMLVisitor_visit_Call_located (n : node) (issues : issues_t) :
  has_location n = true ->
  YAMLVisitor_visit_Call n issues =
  Ok (issues ++ (if is_unsafe_yaml_load n then [yaml_render n] else [])).
Proof.
  intros Hloc. pose proof (get_lineno_located n Hloc) as Hl.
  unfold is_unsafe_yaml_load.
  destruct n as [| | |f args kws l| | | |]; simpl; rewrite ?app_nil_r; try reflexivity.
  destruct f as [| |v attr l'| | | | |]; simpl; rewrite ?app_nil_r; try reflexivity.
  destruct v; simpl; rewrite ?app_nil_r; try reflexivity.
  unfold Str.in_tuple; simpl; rewrite orb_false_r.
  destruct (String.eqb id "yaml" && String.eqb attr "load"); simpl;
    rewrite ?app_nil_r; [|reflexivity].
  rewrite yaml_has_safe_existsb.
  destruct (existsb is_Loader_SafeLoader kws); simpl; rewrite ?app_nil_r; [reflexivity|].
  rewrite Hl; reflexivity.
Qed.

Lemma is_Loader_SafeLoader_iff (kw : keyword) :
  is_Loader_SafeLoader kw = true <->
  kw_arg kw = Some "Loader" /\
  exists obj l, kw_value kw = Attribute obj "SafeLoader" l.
Proof.
  destruct kw as [[a|] v]; simpl.
  - destruct v; simpl;
      try (split; [discriminate | intros [_ [obj [l' H]]]; discriminate H]).
    rewrite andb_true_iff, !String.eqb_eq. split.
    + intros [-> ->]. split; [reflexivity | eauto].
    + intros [Ha [obj [l' Hv]]]. inversion Ha; inversion Hv; subst. split; reflexivity.
  - split; [discriminate | intros [H _]; discriminate H].
Qed.

(** C5: on a located tree [check_yaml_load_usage] returns, in visiting
    order, exactly one diagnostic at the call's line for every call
    [yaml.load(...)] that has no keyword named [Loader] whose value is an
    attribute access ending in [SafeLoader], and nothing for a [yaml.load]
    call that has such a keyword or for any other node. *)
Theorem check_yaml_load_usage_spec (tree : node) :
  located tree = true ->
  check_yaml_load_usage tree =
    Ok (map (fun n => yaml_message (line_of n))
            (filter is_unsafe_yaml_load (nodes tree)))
  /\ (forall n,
        is_unsafe_yaml_load n = true <->
        is_member_call "yaml" ["load"] n = true /\
        ~ exists kw, In kw (call_keywords n) /\ kw_arg kw = Some "Loader" /\
                     exists obj l, kw_value kw = Attribute obj "SafeLoader" l).
Proof.
  intros Hloc. split.
  - unfold check_yaml_load_usage.
    rewrite (@visit_emit YAMLVisitor YAMLVisitor_visit_Call
               (fun n => if is_unsafe_yaml_load n then [yaml_render n] else [])
               YAMLVisitor_eq tree).
    + rewrite flat_map_select; reflexivity.
    + intros n Hin issues. apply YAMLVisitor_visit_Call_located.
      exact (located_In _ _ Hloc Hin).
  - intros n. unfold is_unsafe_yaml_load.
    rewrite andb_true_iff, negb_true_iff.
    split; intros [Hc Hk]; (split; [exact Hc|]).
    + intros [kw [Hin Hkw]].
      assert (He : existsb is_Loader_SafeLoader (call_keywords n) = true).
      { apply existsb_exists. exists kw. split; [exact Hin|].
        apply is_Loader_SafeLoader_iff. exact Hkw. }
      rewrite He in Hk. discriminate Hk.
    + destruct (existsb is_Loader_SafeLoader (call_keywords n)) eqn:He; [|reflexivity].
      exfalso. apply Hk. apply existsb_exists in He. destruct He as [kw [Hin Hs]].
      exists kw. split; [exact Hin|]. apply is_Loader_SafeLoader_iff. exact Hs.
Qed.

Lemma check_yaml_load_usage_spec_witness :
  located Samples.yaml_loads = true /\
  check_yaml_load_usage Samples.yaml_loads = Ok [yaml_message 1].
Proof.
  split; [reflexivity|].
  exact (proj1 (check_yaml_load_usage_spec Samples.yaml_loads eq_refl)).
Defined.

(** C10: at a call [yaml.load(...)] the diagnostic depends on the keyword
    arguments alone: it is emitted whatever the positional arguments are
    (so [yaml.load(data, yaml.SafeLoader)] is flagged), and it is
    suppressed exactly by a keyword named [Loader] whose value is an
    attribute access with final attribute [SafeLoader], whatever object the
    attribute is accessed on. *)
Theorem yaml_load_positional_loader_flagged :
  (forall l1 l2 args kws l issues,
      YAMLVisitor_visit_Call
        (Call (Attribute (Name "yaml" l1) "load" l2) args kws (Some l)) issues =
      Ok (issues ++
          (if existsb is_Loader_SafeLoader kws then [] else [yaml_message l])))
  /\ (forall a obj attr l,
         is_Loader_SafeLoader (Keyword a (Attribute obj attr l)) =
         match a with
         | Some s => String.eqb s "Loader" && String.eqb attr "SafeLoader"
         | None => false
         end)
  /\ (forall kw, is_Loader_SafeLoader kw = true ->
                 kw_arg kw = Some "Loader" /\
                 exists obj l, kw_value kw = Attribute obj "SafeLoader" l)
  /\ check_yaml_load_usage Samples.yaml_positional = Ok [yaml_message 1]
  /\ check_yaml_load_usage Samples.yaml_other_object = Ok [].
Proof.
  split; [|split; [|split; [|split]]].
  - intros. apply YAMLVisitor_visit_Call_yaml_load.
  - intros [s|] obj attr l; reflexivity.
  - intros kw H. apply is_Loader_SafeLoader_iff, H.
  - reflexivity.
  - reflexivity.
Qed.

(** ** check_weak_hashing_usage *)

Lemma HashVisitor_eq (n : node) (issues : issues_t) :
  HashVisitor n issues =
  (issues <- HashVisitor_visit_Attribute n issues ;;
   generic_visit HashVisitor n issues).
Proof. destruct n; reflexivity. Qed.

Lemma HashVisitor_visit_Attribute_located (n : node) (issues : issues_t) :
  has_location n = true ->
  HashVisitor_visit_Attribute n issues =
  Ok (issues ++ (if is_weak_hash_access n then [weak_hash_render n] else [])).
Proof.
  intros Hloc. pose proof (get_lineno_located n Hloc) as Hl.
  destruct n as [| |v attr l| | | | |]; simpl; rewrite ?app_nil_r; try reflexivity.
  destruct v; simpl; rewrite ?app_nil_r; try reflexivity.
  destruct (String.eqb id "hashlib" && _); simpl; rewrite ?app_nil_r; [|reflexivity].
  rewrite Hl; reflexivity.
Qed.

Lemma check_weak_hashing_usage_located (tree : node) :
  located tree = true ->
  check_weak_hashing_usage tree =
  Ok (map weak_hash_render (filter is_weak_hash_access (nodes tree))).
Proof.
  intros Hloc. unfold check_weak_hashing_usage.
  rewrite (@visit_emit HashVisitor HashVisitor_visit_Attribute
             (fun n => if is_weak_hash_access n then [weak_hash_render n] else [])
             HashVisitor_eq tree).
  - rewrite flat_map_select; reflexivity.
  - intros n Hin issues. apply HashVisitor_visit_Attribute_located.
    exact (located_In _ _ Hloc Hin).
Qed.

(** ** Attribute matchers and module aliases *)

(** The nodes below a node of a tree are nodes of the tree. *)
Lemma nodes_trans (t n m : node) :
  In n (nodes t) -> In m (nodes n) -> In m (nodes t).
Proof.
  revert n m.
  assert (Hlist : forall (X : Type) (f : X -> node) (xs : list X),
             Forall (fun x => forall n m, In n (nodes (f x)) -> In m (nodes n) ->
                                          In m (nodes (f x))) xs ->
             forall n m, In n (flat_map (fun x => nodes (f x)) xs) ->
                         In m (nodes n) ->
                         In m (flat_map (fun x => nodes (f x)) xs)).
  { intros X f xs HF n m Hn Hm. apply in_flat_map in Hn. destruct Hn as [x [Hx Hn]].
    apply in_flat_map. exists x. split; [exact Hx|].
    rewrite Forall_forall in HF. exact (HF x Hx n m Hn Hm). }
  induction t using node_ind; intros x y Hx Hy;
    cbn [nodes] in Hx; destruct Hx as [<-|Hx]; try exact Hy;
    cbn [nodes]; right.
  - destruct Hx.
  - destruct Hx.
  - exact (IHt x y Hx Hy).
  - apply in_app_or in Hx. apply in_or_app. destruct Hx as [Hx|Hx].
    + left. exact (IHt x y Hx Hy).
    + right. apply in_app_or in Hx. apply in_or_app. destruct Hx as [Hx|Hx].
      * left. exact (Hlist node (fun a => a) args H x y Hx Hy).
      * right. exact (Hlist keyword kw_value kws H0 x y Hx Hy).
  - apply in_app_or in Hx. apply in_or_app. destruct Hx as [Hx|Hx].
    + left. exact (Hlist node (fun a => a) ts H x y Hx Hy).
    + right. exact (IHt x y Hx Hy).
  - destruct Hx.
  - destruct Hx.
  - exact (Hlist node (fun a => a) cs H x y Hx Hy).
Qed.

Lemma func_receiver (t : node) (id attr : string) (l1 l2 l : option Z)
    (args : list node) (kws : list keyword) :
  In (Call (Attribute (Name id l1) attr l2) args kws l) (nodes t) ->
  exists n, In n (nodes t) /\ receiver n = Some id.
Proof.
  intros Hin. exists (Attribute (Name id l1) attr l2). split; [|reflexivity].
  apply (@nodes_trans t _ _ Hin). cbn [nodes]. right. left. reflexivity.
Qed.

(** C9: each attribute matcher fires only on an access to the bare name of
    its module: on every tree with no attribute access whose receiver is
    the name [subprocess] (resp. [pickle], [yaml], [hashlib]) -- as when the
    module is imported under an alias and used through it -- the check
    returns the empty list. *)
Theorem attribute_matchers_miss_aliases
    (tree : node) (module : string) (check : node -> result (list string)) :
  In (module, check) attribute_matchers ->
  (forall n, In n (nodes tree) -> receiver n <> Some module) ->
  check tree = Ok [].
Proof.
  intros Hin Hrecv.
  assert (Hcall : forall id attr l1 l2 l args kws,
             In (Call (Attribute (Name id l1) attr l2) args kws l) (nodes tree) ->
             String.eqb id module = false).
  { intros id attr l1 l2 l args kws Hc.
    destruct (@func_receiver _ _ _ _ _ _ _ _ Hc) as [n [Hn Hr]].
    apply String.eqb_neq. intros ->. exact (Hrecv n Hn Hr). }
  cbn in Hin.
  destruct Hin as [Hin|[Hin|[Hin|[Hin|[]]]]]; inversion Hin; subst; clear Hin.
  - unfold check_subprocess_usage.
    rewrite (@visit_emit SubprocessVisitor SubprocessVisitor_visit_Call
               (fun _ => []) SubprocessVisitor_eq tree);
      [rewrite flat_map_nil; [reflexivity | reflexivity]|].
    intros n Hn issues. rewrite app_nil_r.
    destruct n as [| | |f args kws l| | | |]; try reflexivity.
    destruct f as [| |v attr l'| | | | |]; try reflexivity.
    destruct v; try reflexivity.
    cbn. rewrite (Hcall _ _ _ _ _ _ _ Hn); reflexivity.
  - unfold check_pickle_usage.
    rewrite (@visit_emit PickleVisitor PickleVisitor_visit_Call
               (fun _ => []) PickleVisitor_eq tree);
      [rewrite flat_map_nil; [reflexivity | reflexivity]|].
    intros n Hn issues. rewrite app_nil_r.
    destruct n as [| | |f args kws l| | | |]; try reflexivity.
    destruct f as [| |v attr l'| | | | |]; try reflexivity.
    destruct v; try reflexivity.
    cbn. rewrite (Hcall _ _ _ _ _ _ _ Hn); reflexivity.
  - unfold check_yaml_load_usage.
    rewrite (@visit_emit YAMLVisitor YAMLVisitor_visit_Call
               (fun _ => []) YAMLVisitor_eq tree);
      [rewrite flat_map_nil; [reflexivity | reflexivity]|].
    intros n Hn issues. rewrite app_nil_r.
    destruct n as [| | |f args kws l| | | |]; try reflexivity.
    destruct f as [| |v attr l'| | | | |]; try reflexivity.
    destruct v; try reflexivity.
    cbn. rewrite (Hcall _ _ _ _ _ _ _ Hn); reflexivity.
  - unfold check_weak_hashing_usage.
    rewrite (@visit_emit HashVisitor HashVisitor_visit_Attribute
               (fun _ => []) HashVisitor_eq tree);
      [rewrite flat_map_nil; [reflexivity | reflexivity]|].
    intros n Hn issues. rewrite app_nil_r.
    destruct n as [| |v attr l| | | | |]; try reflexivity.
    destruct v; try reflexivity.
    cbn.
    assert (Hid : String.eqb id "hashlib" = false).
    { apply String.eqb_neq. intros ->. exact (Hrecv _ Hn eq_refl). }
    rewrite Hid. reflexivity.
Qed.

Lemma receiver_free (tree : node) (module : string) :
  forallb (fun n => match receiver n with
                    | Some id => negb (String.eqb id module)
                    | None => true
                    end) (nodes tree) = true ->
  forall n, In n (nodes tree) -> receiver n <> Some module.
Proof.
  rewrite forallb_forall. intros H n Hin Hr. specialize (H n Hin).
  rewrite Hr, String.eqb_refl in H. discriminate H.
Qed.

Lemma attribute_matchers_miss_aliases_witness :
  check_subprocess_usage Samples.aliased = Ok [] /\
  check_pickle_usage Samples.aliased = Ok [] /\
  check_yaml_load_usage Samples.aliased = Ok [] /\
  check_weak_hashing_usage Samples.aliased = Ok [].
Proof.
  split; [|split; [|split]].
  - apply (@attribute_matchers_miss_aliases Samples.aliased "subprocess");
      [left; reflexivity | apply receiver_free; reflexivity].
  - apply (@attribute_matchers_miss_aliases Samples.aliased "pickle");
      [right; left; reflexivity | apply receiver_free; reflexivity].
  - apply (@attribute_matchers_miss_aliases Samples.aliased "yaml");
      [right; right; left; reflexivity | apply receiver_free; reflexivity].
  - apply (@attribute_matchers_miss_aliases Samples.aliased "hashlib");
      [right; right; right; left; reflexivity | apply receiver_free; reflexivity].
Defined.

(** ** Facts about the string operations *)

Lemma prefix_app (p s : string) :
  String.prefix p s = true <-> exists b, s = (p ++ b)%string.
Proof.
  revert s. induction p as [|c p IH]; intros s.
  - split; [intros _; exists s; reflexivity | intros _; destruct s; reflexivity].
  - destruct s as [|d s]; simpl.
    + split; [discriminate | intros [b Hb]; discriminate Hb].
    + destruct (Ascii.ascii_dec c d) as [->|Hcd].
      * rewrite IH. split; intros [b Hb]; exists b.
        -- rewrite Hb; reflexivity.
        -- inversion Hb; reflexivity.
      * split; [discriminate | intros [b Hb]; inversion Hb; subst; exfalso; apply Hcd; reflexivity].
Qed.

(** [sub in s] holds exactly when [s] is [a ++ sub ++ b] for some [a], [b]. *)
Lemma contains_substring (sub s : string) :
  Str.contains sub s = true <-> exists a b, s = (a ++ sub ++ b)%string.
Proof.
  induction s as [|c s IH]; cbn [Str.contains]; rewrite orb_true_iff, prefix_app.
  - split.
    + intros [[b Hb]|H]; [exists ""%string, b; exact Hb | discriminate H].
    + intros [a [b H]]. left. destruct a as [|x a]; [|discriminate H].
      exists b; exact H.
  - rewrite IH. split.
    + intros [[b Hb]|[a [b H]]].
      * exists ""%string, b; exact Hb.
      * exists (String c a), b. rewrite H; reflexivity.
    + intros [a [b H]]. destruct a as [|x a].
      * left. exists b; exact H.
      * right. inversion H. exists a, b; reflexivity.
Qed.

(** ** Children, and induction by children *)

Lemma flat_map_map {X Y Z} (g : X -> Y) (f : Y -> list Z) (l : list X) :
  flat_map f (map g l) = flat_map (fun x => f (g x)) l.
Proof. induction l as [|x l IH]; simpl; [reflexivity | rewrite IH; reflexivity]. Qed.

Lemma flat_map_ext_In {X Y} (f g : X -> list Y) (l : list X) :
  (forall x, In x l -> f x = g x) -> flat_map f l = flat_map g l.
Proof.
  intros H. apply flat_map_Forall_ext. apply Forall_forall. exact H.
Qed.

Lemma nodes_children (n : node) : nodes n = n :: flat_map nodes (children n).
Proof.
  destruct n; cbn [nodes children flat_map];
    rewrite ?flat_map_app, ?flat_map_map; cbn [flat_map]; rewrite ?app_nil_r;
    reflexivity.
Qed.

Lemma visited_children (descend : node -> bool) (n : node) :
  visited descend n =
  n :: if descend n then flat_map (visited descend) (children n) else [].
Proof.
  destruct n; cbn [visited children flat_map]; destruct (descend _);
    rewrite ?flat_map_app, ?flat_map_map; cbn [flat_map]; rewrite ?app_nil_r;
    reflexivity.
Qed.

Lemma node_children_ind (P : node -> Prop) :
  (forall n, Forall P (children n) -> P n) -> forall n, P n.
Proof.
  intros Hstep. induction n using node_ind; apply Hstep; cbn [children].
  - constructor.
  - constructor.
  - constructor; [assumption | constructor].
  - constructor; [assumption|]. apply Forall_app. split; [assumption|].
    apply Forall_map. assumption.
  - apply Forall_app. split; [assumption|]. constructor; [assumption | constructor].
  - constructor.
  - constructor.
  - assumption.
Qed.

Lemma In_nodes_child (t c n : node) :
  In c (children t) -> In n (nodes c) -> In n (nodes t).
Proof.
  intros Hc Hn. rewrite nodes_children. right.
  apply in_flat_map. exists c. split; assumption.
Qed.

(** A visitor reaches only nodes of the tree. *)
Lemma visited_incl (descend : node -> bool) (t n : node) :
  In n (visited descend t) -> In n (nodes t).
Proof.
  revert n. induction t as [t IH] using node_children_ind. intros n.
  rewrite visited_children. intros [<-|Hin]; [apply nodes_self|].
  destruct (descend t); [|destruct Hin].
  apply in_flat_map in Hin. destruct Hin as [c [Hc Hn]].
  rewrite Forall_forall in IH.
  exact (In_nodes_child _ _ _ Hc (IH c Hc n Hn)).
Qed.

(** Where the visitor returns early only above nodes that emit nothing,
    it emits what a full traversal emits. *)
Lemma visited_flat_map {Y} (descend : node -> bool) (emit : node -> list Y)
    (t : node) :
  (forall n, In n (nodes t) -> descend n = false ->
             forall c m, In c (children n) -> In m (nodes c) -> emit m = []) ->
  flat_map emit (visited descend t) = flat_map emit (nodes t).
Proof.
  induction t as [t IH] using node_children_ind. intros Hyp.
  rewrite visited_children, nodes_children. cbn [flat_map]. f_equal.
  destruct (descend t) eqn:Hd.
  - rewrite !flat_map_flat_map. apply flat_map_ext_In. intros c Hc.
    rewrite Forall_forall in IH. apply (IH c Hc).
    intros n Hn. apply Hyp. exact (In_nodes_child _ _ _ Hc Hn).
  - rewrite flat_map_flat_map. symmetry. apply flat_map_nil. intros c Hc.
    apply flat_map_nil. intros m Hm.
    exact (Hyp t (nodes_self t) Hd c m Hc Hm).
Qed.

(** ** check_hardcoded_secrets *)

Lemma SecretsVisitor_eq (n : node) (issues : issues_t) :
  SecretsVisitor n issues =
  (issues <- SecretsVisitor_method n issues ;;
   if SecretsVisitor_descend n then generic_visit SecretsVisitor n issues
   else Ok issues).
Proof.
  destruct n as [| | | |ts v l| | |]; try reflexivity.
  destruct ts as [|t1 [|t2 ts]]; reflexivity.
Qed.

Lemma SecretsVisitor_method_located (n : node) (issues : issues_t) :
  has_location n = true ->
  SecretsVisitor_method n issues =
  Ok (issues ++ (if is_secret_assignment n then [secrets_render n] else [])).
Proof.
  intros Hloc. pose proof (get_lineno_located n Hloc) as Hl.
  destruct n as [| | | |ts v l| | |]; simpl; rewrite ?app_nil_r; try reflexivity.
  destruct ts as [|t1 [|t2 ts]]; simpl; rewrite ?app_nil_r; try reflexivity;
    destruct t1; simpl; rewrite ?app_nil_r; try reflexivity.
  destruct v as [|c l'| | | | | |]; simpl; rewrite ?app_nil_r; try reflexivity.
  destruct c; simpl; rewrite ?app_nil_r; try reflexivity.
  destruct (Str.contains "key" (Str.lower id) || _); simpl;
    rewrite ?app_nil_r; [|reflexivity].
  rewrite Hl; reflexivity.
Qed.

Lemma expression_tree_no_secret (e m : node) :
  expression_tree e = true -> In m (nodes e) -> is_secret_assignment m = false.
Proof.
  unfold expression_tree. rewrite forallb_forall. intros H Hin.
  specialize (H m Hin). destruct m; try reflexivity; discriminate H.
Qed.

Lemma SecretsVisitor_skips_expressions (tree : node) :
  grammatical tree = true ->
  forall n, In n (nodes tree) -> SecretsVisitor_descend n = false ->
  forall c m, In c (children n) -> In m (nodes c) ->
              (if is_secret_assignment m then [secrets_render m] else []) = [].
Proof.
  unfold grammatical. rewrite forallb_forall. intros Hg n Hn Hd c m Hc Hm.
  specialize (Hg n Hn).
  destruct n as [| | | |ts v l| | |]; try discriminate Hd.
  rewrite forallb_forall in Hg.
  rewrite (expression_tree_no_secret c m (Hg c Hc) Hm). reflexivity.
Qed.

(** C6: on a located, grammatical tree [check_hardcoded_secrets] returns, in
    visiting order, one diagnostic for every secret-like assignment and
    nothing for any other node; an assignment is secret-like if and only if
    it has exactly one target, that target is a plain name, the value is a
    string literal, and the lowercased name contains one of [key],
    [secret], [password], [token], [passwd]. *)
Theorem check_hardcoded_secrets_spec (tree : node) :
  located tree = true ->
  grammatical tree = true ->
  check_hardcoded_secrets tree =
    Ok (map secrets_render (filter is_secret_assignment (nodes tree)))
  /\ (forall n,
        is_secret_assignment n = true <->
        exists id l1 s l2 l,
          n = Assign [Name id l1] (Constant (CStr s) l2) l /\
          exists word,
            In word ["key"; "secret"; "password"; "token"; "passwd"] /\
            exists a b, Str.lower id = (a ++ word ++ b)%string).
Proof.
  intros Hloc Hgram. split.
  - unfold check_hardcoded_secrets.
    rewrite (@visit_for_each SecretsVisitor SecretsVisitor_method
               SecretsVisitor_descend SecretsVisitor_eq tree []).
    rewrite (for_each_emit SecretsVisitor_method
               (fun n => if is_secret_assignment n then [secrets_render n] else [])).
    + cbn [app].
      rewrite (visited_flat_map SecretsVisitor_descend _ tree
                 (SecretsVisitor_skips_expressions tree Hgram)).
      rewrite flat_map_select. reflexivity.
    + intros n Hin issues. apply SecretsVisitor_method_located.
      apply (located_In tree n Hloc). exact (visited_incl _ _ _ Hin).
  - intros n. split.
    + intros H.
      destruct n as [| | | |ts v l| | |]; try discriminate H.
      destruct ts as [|t1 [|t2 ts]]; try discriminate H;
        destruct t1 as [id l1| | | | | | |]; try discriminate H.
      destruct v as [|c l2| | | | | |]; try discriminate H.
      destruct c as [| | | |s| |]; try discriminate H.
      exists id, l1, s, l2, l. split; [reflexivity|].
      cbn [is_secret_assignment] in H. apply existsb_exists in H.
      destruct H as [word [Hw Hc]]. exists word. split; [exact Hw|].
      apply contains_substring. exact Hc.
    + intros [id [l1 [s [l2 [l [-> [word [Hw Hsub]]]]]]]].
      cbn [is_secret_assignment]. apply existsb_exists. exists word.
      split; [exact Hw|]. apply contains_substring. exact Hsub.
Qed.

Lemma check_hardcoded_secrets_spec_witness :
  located Samples.assignments = true /\
  grammatical Samples.assignments = true /\
  check_hardcoded_secrets Samples.assignments = Ok [secrets_message 1 "API_KEY"].
Proof.
  split; [reflexivity|]. split; [reflexivity|].
  exact (proj1 (check_hardcoded_secrets_spec Samples.assignments eq_refl eq_refl)).
Defined.

(** ** [ast.walk] yields every node of the tree once *)

Lemma ast_nodes_children (x : AST) :
  ast_nodes x = as_node x ++ flat_map ast_nodes (iter_child_nodes x).
Proof.
  destruct x as [n|kw|a]; [destruct n| |];
    cbn [ast_nodes as_node iter_child_nodes nodes flat_map app];
    rewrite ?flat_map_app, ?flat_map_map; cbn [flat_map ast_nodes];
    rewrite ?app_nil_r; try reflexivity.
  - rewrite flat_map_nil; [reflexivity | reflexivity].
  - rewrite flat_map_nil; [reflexivity | reflexivity].
Qed.

Lemma walk_queue_nodes (todo : list AST) :
  Permutation (flat_map as_node (walk_queue todo)) (flat_map ast_nodes todo).
Proof.
  funelim (walk_queue todo); simp walk_queue.
  - constructor.
  - cbn [flat_map]. rewrite H, flat_map_app, ast_nodes_children, <- app_assoc.
    apply Permutation_app_head, Permutation_app_comm.
Qed.

Lemma walk_nodes_permutation (tree : node) :
  Permutation (walk_nodes tree) (nodes tree).
Proof.
  unfold walk_nodes, walk. rewrite walk_queue_nodes.
  cbn [flat_map ast_nodes]. rewrite app_nil_r. reflexivity.
Qed.

(** ** check_python_json_logger_import *)

Lemma is_json_logger_iff (name : string) :
  is_json_logger name = true <->
  name = "python_json_logger" \/
  exists rest, name = ("python_json_logger." ++ rest)%string.
Proof.
  unfold is_json_logger, Str.startswith.
  rewrite orb_true_iff, String.eqb_eq, prefix_app. reflexivity.
Qed.

Lemma json_logger_loop_body_located (x : AST) (issues : issues_t) :
  Forall (fun n => has_location n = true) (as_node x) ->
  json_logger_loop_body x issues =
  Ok (issues ++ flat_map json_logger_diags (as_node x)).
Proof.
  intros Hloc.
  destruct x as [n|kw|a]; cbn [as_node flat_map]; rewrite ?app_nil_r;
    try reflexivity.
  inversion Hloc as [|? ? Hn _]; subst.
  pose proof (get_lineno_located n Hn) as Hl.
  destruct n; cbn [json_logger_loop_body json_logger_diags];
    rewrite ?app_nil_r; try reflexivity.
  - rewrite <- flat_map_select. apply for_each_emit. intros a _ issues'.
    destruct (is_json_logger (alias_name a)); rewrite ?app_nil_r; [|reflexivity].
    rewrite Hl. reflexivity.
  - cbv zeta. destruct (is_json_logger (module_or_empty module));
      rewrite ?app_nil_r; [|reflexivity].
    rewrite Hl. reflexivity.
Qed.

(** C7: on a located tree [check_python_json_logger_import] returns the
    diagnostics of the nodes [ast.walk] yields, which are the nodes of the
    tree, each once: for an [Import], one per alias whose name is
    [python_json_logger] or starts with [python_json_logger.]; for an
    [ImportFrom], one when its module is so; at the statement's line; and
    nothing for any other node or import. *)
Theorem check_python_json_logger_import_spec (tree : node) :
  located tree = true ->
  check_python_json_logger_import tree =
    Ok (flat_map json_logger_diags (walk_nodes tree))
  /\ Permutation (walk_nodes tree) (nodes tree)
  /\ (forall name,
        is_json_logger name = true <->
        name = "python_json_logger" \/
        exists rest, name = ("python_json_logger." ++ rest)%string).
Proof.
  intros Hloc. split; [|split].
  - unfold check_python_json_logger_import.
    rewrite (for_each_emit json_logger_loop_body
               (fun x => flat_map json_logger_diags (as_node x))).
    + unfold walk_nodes. rewrite flat_map_flat_map. reflexivity.
    + intros x Hx issues. apply json_logger_loop_body_located.
      apply Forall_forall. intros n Hn.
      apply (located_In tree n Hloc).
      apply (Permutation_in n (walk_nodes_permutation tree)).
      unfold walk_nodes. apply in_flat_map. exists x. split; assumption.
  - apply walk_nodes_permutation.
  - apply is_json_logger_iff.
Qed.

Lemma check_python_json_logger_import_spec_witness :
  located Samples.imports = true /\
  check_python_json_logger_import Samples.imports =
    Ok [json_logger_import_message 1; json_logger_from_message 2].
Proof.
  split; [reflexivity|].
  exact (proj1 (check_python_json_logger_import_spec Samples.imports eq_refl)).
Defined.

(** ** run_all_checks *)

(** C1: [run_all_checks] is the concatenation of the outputs of the seven
    checks in registry order (exec/eval, python_json_logger import,
    subprocess, pickle, yaml load, hard-coded secrets, weak hashing); being
    a function of the tree, two runs on one tree return the same list. *)
Theorem run_all_checks_concatenates (tree : node) :
  run_all_checks tree =
    (exec_eval <- check_exec_eval_usage tree ;;
     json_logger <- check_python_json_logger_import tree ;;
     subprocess <- check_subprocess_usage tree ;;
     pickle <- check_pickle_usage tree ;;
     yaml <- check_yaml_load_usage tree ;;
     secrets <- check_hardcoded_secrets tree ;;
     weak_hash <- check_weak_hashing_usage tree ;;
     Ok (exec_eval ++ json_logger ++ subprocess ++ pickle ++ yaml ++ secrets
         ++ weak_hash))
  /\ (forall first second,
        run_all_checks tree = Ok first -> run_all_checks tree = Ok second ->
        first = second).
Proof.
  split.
  - unfold run_all_checks, run_checks, checks. cbn [for_each].
    destruct (check_exec_eval_usage tree); [|reflexivity].
    destruct (check_python_json_logger_import tree); [|reflexivity].
    destruct (check_subprocess_usage tree); [|reflexivity].
    destruct (check_pickle_usage tree); [|reflexivity].
    destruct (check_yaml_load_usage tree); [|reflexivity].
    destruct (check_hardcoded_secrets tree); [|reflexivity].
    destruct (check_weak_hashing_usage tree); [|reflexivity].
    cbn [bind app]. rewrite <- !app_assoc. reflexivity.
  - intros first second H1 H2. rewrite H1 in H2. inversion H2. reflexivity.
Qed.

Lemma run_all_checks_concatenates_witness :
  run_all_checks Samples.mixed =
  Ok [exec_eval_message 1 "exec"; subprocess_message 3 "run";
      pickle_message 2 "loads"].
Proof.
  rewrite (proj1 (run_all_checks_concatenates Samples.mixed)). reflexivity.
Defined.

Lemma for_each_no_raise {X S} (body : X -> S -> result S) (xs : list X) :
  (forall x, In x xs -> forall s, raises (body x s) = false) ->
  forall s, raises (for_each body xs s) = false.
Proof.
  induction xs as [|x xs IH]; intros H s; [reflexivity|].
  cbn [for_each]. pose proof (H x (or_introl eq_refl) s) as Hx.
  destruct (body x s) as [s'|e]; [|discriminate Hx].
  cbn [bind]. apply IH. intros y Hy. apply H. right. exact Hy.
Qed.

(** A tree on which exactly one registered check raises (the fourth,
    [check_pickle_usage]) while another has a diagnostic to report:
    [run_all_checks] raises, and that diagnostic is lost with the rest. *)
Lemma run_all_checks_propagates_example :
  map (fun check => raises (check Samples.unlocated)) checks =
    [false; false; false; true; false; false; false]
  /\ check_exec_eval_usage Samples.unlocated = Ok [exec_eval_message 1 "exec"]
  /\ run_all_checks Samples.unlocated = Raise (AttributeError "Call" "lineno").
Proof. split; [reflexivity | split; reflexivity]. Qed.

(** C2, as the code has it: there is no fault isolation.  When a registered
    check raises on the tree and every check before it in the registry
    returns, [run_all_checks] raises that same exception and returns no
    list at all. *)
Theorem run_all_checks_propagates
    (tree : node) (before after : list (node -> result (list string)))
    (check : node -> result (list string)) (e : exn) :
  checks = before ++ check :: after ->
  Forall (fun c => raises (c tree) = false) before ->
  check tree = Raise e ->
  run_all_checks tree = Raise e.
Proof.
  intros Hsplit Hbefore Hraise.
  unfold run_all_checks, run_checks. rewrite Hsplit, for_each_app.
  pose proof (for_each_no_raise
                (fun (c : node -> result (list string)) all_issues =>
                   found <- c tree ;; Ok (all_issues ++ found)) before) as Hb.
  assert (Hok : forall s, raises
                  (for_each (fun (c : node -> result (list string)) all_issues =>
                               found <- c tree ;; Ok (all_issues ++ found))
                            before s) = false).
  { apply Hb. intros c Hc s. rewrite Forall_forall in Hbefore.
    specialize (Hbefore c Hc). destruct (c tree); [reflexivity | discriminate Hbefore]. }
  specialize (Hok []).
  destruct (for_each _ before []) as [acc|e']; [|discriminate Hok].
  cbn [bind for_each]. rewrite Hraise. reflexivity.
Qed.

Lemma run_all_checks_propagates_witness :
  run_all_checks Samples.unlocated = Raise (AttributeError "Call" "lineno").
Proof.
  apply (@run_all_checks_propagates Samples.unlocated
           [check_exec_eval_usage; check_python_json_logger_import;
            check_subprocess_usage]
           [check_yaml_load_usage; check_hardcoded_secrets;
            check_weak_hashing_usage]
           check_pickle_usage).
  - reflexivity.
  - repeat constructor.
  - reflexivity.
Defined.

(** ** Every check is its rule folded over the nodes it reaches *)

Lemma for_each_ext {X S} (f g : X -> S -> result S) (xs : list X) :
  (forall x s, f x s = g x s) -> forall s, for_each f xs s = for_each g xs s.
Proof.
  intros H. induction xs as [|x xs IH]; intros s; [reflexivity|].
  cbn [for_each]. rewrite H. destruct (g x s); [apply IH | reflexivity].
Qed.

Lemma for_each_map {X Y S} (h : X -> Y) (body : Y -> S -> result S)
    (xs : list X) (s : S) :
  for_each body (map h xs) s = for_each (fun x => body (h x)) xs s.
Proof.
  revert s. induction xs as [|x xs IH]; intros s; [reflexivity|].
  cbn [map for_each]. destruct (body (h x) s); [apply IH | reflexivity].
Qed.

Lemma filter_existsb_false {X} (p : X -> bool) (xs : list X) :
  existsb p xs = false -> filter p xs = [].
Proof.
  induction xs as [|x xs IH]; [reflexivity|]. cbn [existsb filter].
  destruct (p x); [discriminate | exact IH].
Qed.

(** A loop that appends the same message, read from one fallible lookup,
    for every element that passes a test. *)
Lemma for_each_guarded {X} (p : X -> bool) (lookup : result Z)
    (message : Z -> string) (xs : list X) (issues : issues_t) :
  for_each (fun x issues =>
              if p x then l <- lookup ;; Ok (issues ++ [message l])
              else Ok issues) xs issues =
  if existsb p xs then
    l <- lookup ;; Ok (issues ++ map (fun _ => message l) (filter p xs))
  else Ok issues.
Proof.
  destruct lookup as [l|e]; cbn [bind].
  - assert (H : forall issues,
               for_each (fun x issues => if p x then Ok (issues ++ [message l])
                                         else Ok issues) xs issues =
               Ok (issues ++ map (fun _ => message l) (filter p xs))).
    { induction xs as [|x xs IH]; intros acc; cbn [for_each filter].
      - rewrite app_nil_r. reflexivity.
      - destruct (p x); cbn [bind map]; rewrite IH; [|reflexivity].
        rewrite <- app_assoc. reflexivity. }
    rewrite H. destruct (existsb p xs) eqn:He; [reflexivity|].
    rewrite (filter_existsb_false _ _ He), app_nil_r. reflexivity.
  - revert issues. induction xs as [|x xs IH]; intros issues; [reflexivity|].
    cbn [for_each existsb]. destruct (p x); [reflexivity|]. cbn [bind orb]. apply IH.
Qed.

Lemma ExecEvalVisitor_visit_Call_rule (n : node) (issues : issues_t) :
  ExecEvalVisitor_visit_Call n issues =
  rule_method (rule_fires exec_eval_rule) (rule_diags exec_eval_rule) n issues.
Proof.
  unfold rule_method. cbn [rule_fires rule_diags exec_eval_rule].
  destruct n as [| | |f args kws l| | | |]; try reflexivity.
  destruct f; try reflexivity.
  cbn [ExecEvalVisitor_visit_Call is_exec_eval_call callee_name].
  unfold Str.in_tuple. cbn [existsb]. rewrite orb_false_r. reflexivity.
Qed.

Lemma SubprocessVisitor_visit_Call_rule (n : node) (issues : issues_t) :
  SubprocessVisitor_visit_Call n issues =
  rule_method (rule_fires subprocess_rule) (rule_diags subprocess_rule) n issues.
Proof.
  unfold rule_method. cbn [rule_fires rule_diags subprocess_rule].
  unfold fires_subprocess.
  destruct n as [| | |f args kws l| | | |]; try reflexivity.
  destruct f as [| |v attr l'| | | | |]; try reflexivity.
  destruct v; try reflexivity.
  cbn [SubprocessVisitor_visit_Call is_member_call call_keywords callee_attr].
  fold subprocess_members.
  destruct (String.eqb id "subprocess" && Str.in_tuple attr subprocess_members);
    [|reflexivity].
  cbn [andb].
  rewrite <- (for_each_guarded is_shell_True _
                (fun lineno => subprocess_message lineno attr)).
  apply for_each_ext. intros kw acc. unfold is_shell_True.
  destruct (arg_is kw "shell"); [|reflexivity].
  destruct (is_literal_True (kw_value kw)); reflexivity.
Qed.

Lemma PickleVisitor_visit_Call_rule (n : node) (issues : issues_t) :
  PickleVisitor_visit_Call n issues =
  rule_method (rule_fires pickle_rule) (rule_diags pickle_rule) n issues.
Proof.
  unfold rule_method. cbn [rule_fires rule_diags pickle_rule].
  destruct n as [| | |f args kws l| | | |]; try reflexivity.
  destruct f as [| |v attr l'| | | | |]; try reflexivity.
  destruct v; reflexivity.
Qed.

Lemma YAMLVisitor_visit_Call_rule (n : node) (issues : issues_t) :
  YAMLVisitor_visit_Call n issues =
  rule_method (rule_fires yaml_rule) (rule_diags yaml_rule) n issues.
Proof.
  unfold rule_method. cbn [rule_fires rule_diags yaml_rule].
  unfold is_unsafe_yaml_load.
  destruct n as [| | |f args kws l| | | |]; try reflexivity.
  destruct f as [| |v attr l'| | | | |]; try reflexivity.
  destruct v; try reflexivity.
  cbn [YAMLVisitor_visit_Call is_member_call call_keywords].
  unfold Str.in_tuple. cbn [existsb]. rewrite orb_false_r.
  rewrite yaml_has_safe_existsb.
  destruct (String.eqb id "yaml" && String.eqb attr "load"); reflexivity.
Qed.

Lemma SecretsVisitor_method_rule (n : node) (issues : issues_t) :
  SecretsVisitor_method n issues =
  rule_method (rule_fires secrets_rule) (rule_diags secrets_rule) n issues.
Proof.
  unfold rule_method. cbn [rule_fires rule_diags secrets_rule].
  destruct n as [| | | |ts v l| | |]; try reflexivity.
  destruct ts as [|t1 [|t2 ts]]; try reflexivity;
    destruct t1; try reflexivity.
  destruct v as [|c l'| | | | | |]; try reflexivity.
  destruct c; reflexivity.
Qed.

Lemma HashVisitor_visit_Attribute_rule (n : node) (issues : issues_t) :
  HashVisitor_visit_Attribute n issues =
  rule_method (rule_fires weak_hash_rule) (rule_diags weak_hash_rule) n issues.
Proof.
  unfold rule_method. cbn [rule_fires rule_diags weak_hash_rule].
  destruct n as [| |v attr l| | | | |]; try reflexivity.
  destruct v; reflexivity.
Qed.

Lemma json_logger_loop_body_rule (n : node) (issues : issues_t) :
  json_logger_loop_body (ANode n) issues =
  rule_method (rule_fires json_logger_rule) (rule_diags json_logger_rule) n issues.
Proof.
  unfold rule_method. cbn [rule_fires rule_diags json_logger_rule].
  destruct n as [| | | | |names l|module names l|]; try reflexivity.
  cbn [json_logger_loop_body is_json_logger_import json_logger_diags_at].
  apply (for_each_guarded (fun a => is_json_logger (alias_name a))).
Qed.

Lemma for_each_as_node (body : AST -> issues_t -> result issues_t)
    (xs : list AST) (issues : issues_t) :
  (forall x acc, as_node x = [] -> body x acc = Ok acc) ->
  for_each body xs issues =
  for_each (fun n => body (ANode n)) (flat_map as_node xs) issues.
Proof.
  intros Hskip. revert issues. induction xs as [|x xs IH]; intros issues;
    [reflexivity|].
  cbn [for_each flat_map]. destruct x as [n|kw|a]; cbn [as_node app for_each].
  - destruct (body (ANode n) issues); [apply IH | reflexivity].
  - rewrite (Hskip (AKeyword kw) issues eq_refl). apply IH.
  - rewrite (Hskip (AAlias a) issues eq_refl). apply IH.
Qed.

Lemma visitor_run_rule (visit method : node -> issues_t -> result issues_t)
    (r : rule) (tree : node) :
  (forall n issues,
      visit n issues = (issues <- method n issues ;; generic_visit visit n issues)) ->
  (forall n issues,
      method n issues = rule_method (rule_fires r) (rule_diags r) n issues) ->
  rule_reach r = nodes ->
  visit tree [] = run_rule r tree.
Proof.
  intros Heq Hm Hreach. unfold run_rule. rewrite Hreach.
  rewrite (@visit_nodes visit method Heq). apply for_each_ext. exact Hm.
Qed.

Lemma check_exec_eval_usage_rule (tree : node) :
  check_exec_eval_usage tree = run_rule exec_eval_rule tree.
Proof.
  exact (@visitor_run_rule _ _ exec_eval_rule tree ExecEvalVisitor_eq
           ExecEvalVisitor_visit_Call_rule eq_refl).
Qed.

Lemma check_subprocess_usage_rule (tree : node) :
  check_subprocess_usage tree = run_rule subprocess_rule tree.
Proof.
  exact (@visitor_run_rule _ _ subprocess_rule tree SubprocessVisitor_eq
           SubprocessVisitor_visit_Call_rule eq_refl).
Qed.

Lemma check_pickle_usage_rule (tree : node) :
  check_pickle_usage tree = run_rule pickle_rule tree.
Proof.
  exact (@visitor_run_rule _ _ pickle_rule tree PickleVisitor_eq
           PickleVisitor_visit_Call_rule eq_refl).
Qed.

Lemma check_yaml_load_usage_rule (tree : node) :
  check_yaml_load_usage tree = run_rule yaml_rule tree.
Proof.
  exact (@visitor_run_rule _ _ yaml_rule tree YAMLVisitor_eq
           YAMLVisitor_visit_Call_rule eq_refl).
Qed.

Lemma check_weak_hashing_usage_rule (tree : node) :
  check_weak_hashing_usage tree = run_rule weak_hash_rule tree.
Proof.
  exact (@visitor_run_rule _ _ weak_hash_rule tree HashVisitor_eq
           HashVisitor_visit_Attribute_rule eq_refl).
Qed.

Lemma check_hardcoded_secrets_rule (tree : node) :
  check_hardcoded_secrets tree = run_rule secrets_rule tree.
Proof.
  unfold check_hardcoded_secrets, run_rule. cbn [rule_reach secrets_rule].
  rewrite (@visit_for_each SecretsVisitor SecretsVisitor_method
             SecretsVisitor_descend SecretsVisitor_eq tree []).
  apply for_each_ext. exact SecretsVisitor_method_rule.
Qed.

Lemma check_python_json_logger_import_rule (tree : node) :
  check_python_json_logger_import tree = run_rule json_logger_rule tree.
Proof.
  unfold check_python_json_logger_import, run_rule.
  cbn [rule_reach json_logger_rule]. unfold walk_nodes.
  rewrite for_each_as_node.
  - apply for_each_ext. exact json_logger_loop_body_rule.
  - intros x acc Hx. destruct x; [discriminate Hx | reflexivity | reflexivity].
Qed.

(** The registry of [run_all_checks] is the list of rules, in order. *)
Lemma checks_are_rules (tree : node) :
  map (fun check => check tree) checks = map (fun r => run_rule r tree) rules.
Proof.
  cbn [map checks rules].
  rewrite check_exec_eval_usage_rule, check_python_json_logger_import_rule,
    check_subprocess_usage_rule, check_pickle_usage_rule,
    check_yaml_load_usage_rule, check_hardcoded_secrets_rule,
    check_weak_hashing_usage_rule.
  reflexivity.
Qed.

Lemma run_checks_collect (cs : list (node -> result (list string))) (tree : node) :
  run_checks cs tree = collect (map (fun check => check tree) cs).
Proof. unfold run_checks, collect. rewrite for_each_map. reflexivity. Qed.

Lemma run_all_checks_rules (tree : node) :
  run_all_checks tree = collect (map (fun r => run_rule r tree) rules).
Proof.
  unfold run_all_checks. rewrite run_checks_collect, checks_are_rules. reflexivity.
Qed.

(** ** What a rule does over a list of nodes *)

Lemma has_lineno_get (n : node) :
  has_lineno n = true -> get_lineno n = Ok (line_of n).
Proof.
  unfold has_lineno, get_lineno, line_of.
  destruct (lineno_attr n); [reflexivity | discriminate].
Qed.

Lemma no_lineno_get (n : node) :
  lineno_attr n = None ->
  get_lineno n = Raise (AttributeError (class_name n) "lineno").
Proof. unfold get_lineno. intros ->. reflexivity. Qed.

Section Rule.
Variable fires : node -> bool.
Variable diags : Z -> node -> list string.

(** With the lines it needs, the rule returns its diagnostics in order. *)
Lemma rule_returns (ns : list node) (issues : issues_t) :
  forallb (fun n => negb (fires n) || has_lineno n) ns = true ->
  for_each (rule_method fires diags) ns issues =
  Ok (issues ++ flat_map (fun n => if fires n then diags (line_of n) n else []) ns).
Proof.
  intros H. apply for_each_emit. intros n Hn acc.
  rewrite forallb_forall in H. specialize (H n Hn).
  unfold rule_method. destruct (fires n); [|rewrite app_nil_r; reflexivity].
  rewrite (has_lineno_get n H). reflexivity.
Qed.

(** It raises when it fires at a node where it finds no line. *)
Lemma rule_unlined_raises (ns : list node) (issues : issues_t) (n : node) :
  In n ns -> fires n = true -> lineno_attr n = None ->
  raises (for_each (rule_method fires diags) ns issues) = true.
Proof.
  revert issues. induction ns as [|m ns IH]; intros issues Hin Hf Hl; [destruct Hin|].
  cbn [for_each].
  destruct (rule_method fires diags m issues) as [acc|e] eqn:Hm; [|reflexivity].
  cbn [bind]. destruct Hin as [->|Hin]; [|exact (IH acc Hin Hf Hl)].
  unfold rule_method in Hm. rewrite Hf, (no_lineno_get n Hl) in Hm. discriminate Hm.
Qed.

Lemma rule_returned_lined (ns : list node) (issues out : issues_t) :
  for_each (rule_method fires diags) ns issues = Ok out ->
  forallb (fun n => negb (fires n) || has_lineno n) ns = true.
Proof.
  intros H. apply forallb_forall. intros n Hn.
  destruct (fires n) eqn:Hf; [|reflexivity]. cbn [negb orb].
  unfold has_lineno. destruct (lineno_attr n) eqn:Hl; [reflexivity|].
  pose proof (@rule_unlined_raises ns issues n Hn Hf Hl) as Hr.
  rewrite H in Hr. discriminate Hr.
Qed.

(** The list it is handed only matters as a prefix of the result. *)
Lemma rule_frame (ns : list node) (issues : issues_t) :
  for_each (rule_method fires diags) ns issues =
  (new <- for_each (rule_method fires diags) ns [] ;; Ok (issues ++ new)).
Proof.
  revert issues. induction ns as [|n ns IH]; intros issues; cbn [for_each bind].
  - rewrite app_nil_r. reflexivity.
  - unfold rule_method at 1 3. destruct (fires n); cbn [bind].
    + destruct (get_lineno n) as [l|e]; cbn [bind app]; [|reflexivity].
      rewrite (IH (issues ++ diags l n)), (IH (diags l n)).
      destruct (for_each (rule_method fires diags) ns []); cbn [bind];
        [rewrite app_assoc|]; reflexivity.
    + apply IH.
Qed.
End Rule.

(** ** Collecting the results of the checks *)

Lemma collect_cons (r : result (list string)) (rs : list (result (list string))) :
  collect (r :: rs) = (a <- r ;; b <- collect rs ;; Ok (a ++ b)).
Proof.
  unfold collect. cbn [for_each]. destruct r as [a|e]; cbn [bind app]; [|reflexivity].
  assert (H : forall acc,
             for_each (fun r all_issues => found <- r ;; Ok (all_issues ++ found)) rs acc =
             (b <- for_each (fun r all_issues => found <- r ;; Ok (all_issues ++ found))
                            rs [] ;; Ok (acc ++ b))).
  { induction rs as [|r' rs IH]; intros acc; cbn [for_each bind].
    - rewrite app_nil_r. reflexivity.
    - destruct r' as [f|e]; cbn [bind app]; [|reflexivity].
      rewrite (IH (acc ++ f)), (IH f).
      destruct (for_each _ rs []); cbn [bind]; [rewrite app_assoc|]; reflexivity. }
  apply H.
Qed.

Lemma collect_raises (rs : list (result (list string))) (r : result (list string)) :
  In r rs -> raises r = true -> raises (collect rs) = true.
Proof.
  induction rs as [|r' rs IH]; intros Hin Hr; [destruct Hin|].
  rewrite collect_cons. destruct r' as [a|e]; cbn [bind]; [|reflexivity].
  destruct Hin as [<-|Hin]; [discriminate Hr|].
  specialize (IH Hin Hr). destruct (collect rs); [discriminate IH | reflexivity].
Qed.

Lemma collect_nil (rs : list (result (list string))) :
  collect rs = Ok [] -> forall r, In r rs -> r = Ok [].
Proof.
  induction rs as [|r' rs IH]; intros H r Hin; [destruct Hin|].
  rewrite collect_cons in H. destruct r' as [a|e]; [|discriminate H].
  cbn [bind] in H. destruct (collect rs) as [b|e]; [|discriminate H].
  cbn [bind] in H. inversion H as [Hab]. apply app_eq_nil in Hab.
  destruct Hab as [-> ->]. destruct Hin as [<-|Hin]; [reflexivity|].
  exact (IH eq_refl r Hin).
Qed.

(** ** Facts about the seven rules *)

Ltac each_rule H :=
  cbn [rules In] in H;
  destruct H as [<-|[<-|[<-|[<-|[<-|[<-|[<-|[]]]]]]]];
  cbn [rule_fires rule_diags rule_reach exec_eval_rule json_logger_rule
       subprocess_rule pickle_rule yaml_rule secrets_rule weak_hash_rule].

Lemma rule_fires_triggers (r : rule) (n : node) :
  In r rules -> rule_fires r n = true -> triggers n = true.
Proof.
  intros Hr. each_rule Hr; unfold triggers, fires_subprocess; intros ->;
    rewrite ?orb_true_r; reflexivity.
Qed.

Lemma triggers_fires (n : node) :
  triggers n = true -> exists r, In r rules /\ rule_fires r n = true.
Proof.
  unfold triggers. rewrite !orb_true_iff.
  intros [[[[[[H|H]|H]|H]|H]|H]|H].
  - exists exec_eval_rule. split; [cbn; tauto | exact H].
  - exists json_logger_rule. split; [cbn; tauto | exact H].
  - exists subprocess_rule. split; [cbn; tauto | exact H].
  - exists pickle_rule. split; [cbn; tauto | exact H].
  - exists yaml_rule. split; [cbn; tauto | exact H].
  - exists secrets_rule. split; [cbn; tauto | exact H].
  - exists weak_hash_rule. split; [cbn; tauto | exact H].
Qed.

Lemma rule_reach_nodes (r : rule) (tree n : node) :
  In r rules -> In n (rule_reach r tree) -> In n (nodes tree).
Proof.
  intros Hr. each_rule Hr; intros H; try exact H.
  - exact (Permutation_in n (walk_nodes_permutation tree) H).
  - exact (visited_incl _ _ _ H).
Qed.

Lemma rule_diags_nonempty (r : rule) (l : Z) (n : node) :
  In r rules -> rule_fires r n = true -> rule_diags r l n <> [].
Proof.
  intros Hr. each_rule Hr; intros Hf; try discriminate.
  - destruct n; try discriminate Hf; cbn [json_logger_diags_at is_json_logger_import] in *.
    + apply existsb_exists in Hf. destruct Hf as [a [Ha Hp]].
      intros Hnil. apply map_eq_nil in Hnil.
      assert (Hin : In a (filter (fun a => is_json_logger (alias_name a)) names))
        by (apply filter_In; split; assumption).
      rewrite Hnil in Hin. destruct Hin.
    + discriminate.
  - unfold fires_subprocess in Hf. apply andb_true_iff in Hf. destruct Hf as [_ Hf].
    apply existsb_exists in Hf. destruct Hf as [kw [Hkw Hp]].
    intros Hnil. apply map_eq_nil in Hnil.
    assert (Hin : In kw (filter is_shell_True (call_keywords n)))
      by (apply filter_In; split; assumption).
    rewrite Hnil in Hin. destruct Hin.
Qed.

Lemma filter_flat_map_singleton {X} (p : X -> bool) (l : list X) :
  flat_map (fun x => if p x then [x] else []) l = filter p l.
Proof.
  induction l as [|x l IH]; [reflexivity|]. cbn [flat_map filter].
  destruct (p x); cbn [app]; rewrite IH; reflexivity.
Qed.

(** In a grammatical tree every rule reaches every node it fires at. *)
Lemma grammatical_reach (r : rule) (tree n : node) :
  grammatical tree = true -> In r rules ->
  In n (nodes tree) -> rule_fires r n = true -> In n (rule_reach r tree).
Proof.
  intros Hg Hr. each_rule Hr; intros Hn Hf; try exact Hn.
  - apply (Permutation_in n (Permutation_sym (walk_nodes_permutation tree)) Hn).
  - assert (Heq : filter is_secret_assignment (visited SecretsVisitor_descend tree) =
                  filter is_secret_assignment (nodes tree)).
    { rewrite <- !filter_flat_map_singleton. apply visited_flat_map.
      intros m Hm Hd c k Hc Hk.
      pose proof (SecretsVisitor_skips_expressions tree Hg m Hm Hd c k Hc Hk) as Hs.
      destruct (is_secret_assignment k); [discriminate Hs | reflexivity]. }
    assert (Hin : In n (filter is_secret_assignment (nodes tree)))
      by (apply filter_In; split; assumption).
    rewrite <- Heq in Hin. apply filter_In in Hin. exact (proj1 Hin).
Qed.

(** ** The shape of every diagnostic *)

Lemma collect_map_returned {X} (run : X -> result (list string))
    (output : X -> list string) (xs : list X) (out : list string) :
  (forall x found, run x = Ok found -> found = output x) ->
  collect (map run xs) = Ok out ->
  out = flat_map output xs.
Proof.
  intros Hrun. revert out. induction xs as [|x xs IH]; intros out H.
  - inversion H. reflexivity.
  - cbn [map] in H. rewrite collect_cons in H.
    destruct (run x) as [a|e] eqn:Hx; [|discriminate H]. cbn [bind] in H.
    destruct (collect (map run xs)) as [b|e]; [|discriminate H].
    cbn [bind] in H. inversion H. cbn [flat_map].
    rewrite (Hrun x a Hx), (IH b eq_refl). reflexivity.
Qed.

(** A rule that returns had the lines it needed and returns its output. *)
Lemma run_rule_returned (r : rule) (tree : node) (found : list string) :
  run_rule r tree = Ok found ->
  lined r tree = true /\ found = rule_output r tree.
Proof.
  intros H. pose proof (@rule_returned_lined _ _ _ _ _ H) as Hl.
  split; [exact Hl|].
  unfold run_rule in H. rewrite (@rule_returns _ _ _ _ Hl) in H.
  inversion H. reflexivity.
Qed.

(** Every diagnostic of every rule reads [[Security]<tag> Line N: ...],
    with [N] the line it is given. *)
Lemma rule_diags_format (r : rule) (N : Z) (n : node) (s : string) :
  In r rules -> In s (rule_diags r N n) ->
  exists code rest,
    In code code_tags /\
    s = ("[Security]" ++ code ++ " Line " ++ Str.str_int N ++ ": " ++ rest)%string.
Proof.
  intros Hr. each_rule Hr; intros Hs.
  - destruct Hs as [<-|[]]. eexists "[CVE-2025-3248]", _.
    split; [cbn; tauto | reflexivity].
  - destruct n; try destruct Hs.
    + apply in_map_iff in Hs. destruct Hs as [a [<- _]].
      eexists "[CVE-2025-27607]", _. split; [cbn; tauto | reflexivity].
    + subst s. eexists "[CVE-2025-27607]", _. split; [cbn; tauto | reflexivity].
    + destruct H.
  - apply in_map_iff in Hs. destruct Hs as [kw [<- _]].
    eexists "", _. split; [cbn; tauto | reflexivity].
  - destruct Hs as [<-|[]]. eexists "", _. split; [cbn; tauto | reflexivity].
  - destruct Hs as [<-|[]]. eexists "", _. split; [cbn; tauto | reflexivity].
  - destruct Hs as [<-|[]]. eexists "", _. split; [cbn; tauto | reflexivity].
  - destruct Hs as [<-|[]]. eexists "", _. split; [cbn; tauto | reflexivity].
Qed.

(** C8: whenever [run_all_checks] returns, on any tree, its list is exactly
    the diagnostics of the seven rules in registry order, each rule giving,
    for every node it reaches and fires at, in the order it reaches them,
    its diagnostics for that node at that node's own line.  So every string
    returned is a diagnostic of some rule [r] for a node [n] of the tree at
    which [r] fires, and it reads [[Security]<tag> Line N: ...] where
    [<tag>] is empty or one of the two fixed reference tags and [N] is the
    [lineno] of [n], the node that triggered it. *)
Theorem run_all_checks_diagnostics (tree : node) (out : list string) :
  run_all_checks tree = Ok out ->
  out = flat_map (fun r => rule_output r tree) rules
  /\ forall s, In s out ->
       exists r n N code rest,
         In r rules /\ In n (rule_reach r tree) /\ In n (nodes tree) /\
         rule_fires r n = true /\ triggers n = true /\
         lineno_attr n = Some N /\ line_of n = N /\
         In s (rule_diags r N n) /\
         In code [""; "[CVE-2025-3248]"; "[CVE-2025-27607]"] /\
         s = ("[Security]" ++ code ++ " Line " ++ Str.str_int N ++ ": " ++ rest)%string.
Proof.
  intros Hrun. rewrite run_all_checks_rules in Hrun.
  assert (Hout : out = flat_map (fun r => rule_output r tree) rules).
  { apply (collect_map_returned (fun r => run_rule r tree)
             (fun r => rule_output r tree) rules); [|exact Hrun].
    intros r found Hr. exact (proj2 (@run_rule_returned r tree found Hr)). }
  split; [exact Hout|].
  intros s Hs. rewrite Hout in Hs.
  apply in_flat_map in Hs. destruct Hs as [r [Hr Hs]].
  unfold rule_output in Hs. apply in_flat_map in Hs. destruct Hs as [n [Hn Hs]].
  destruct (rule_fires r n) eqn:Hf; [|destruct Hs].
  assert (Hl : lined r tree = true).
  { destruct (run_rule r tree) as [found|e] eqn:Hrr.
    - exact (proj1 (@run_rule_returned r tree found Hrr)).
    - exfalso. assert (Hin : In (Raise e) (map (fun r => run_rule r tree) rules)).
      { apply in_map_iff. exists r. split; [exact Hrr | exact Hr]. }
      pose proof (@collect_raises _ (Raise e) Hin eq_refl) as Hraise.
      rewrite Hrun in Hraise. discriminate Hraise. }
  unfold lined in Hl. rewrite forallb_forall in Hl. specialize (Hl n Hn).
  rewrite Hf in Hl. cbn [negb orb] in Hl. unfold has_lineno in Hl.
  destruct (lineno_attr n) as [N|] eqn:HN; [|discriminate Hl].
  assert (Hline : line_of n = N) by (unfold line_of; rewrite HN; reflexivity).
  rewrite Hline in Hs.
  destruct (@rule_diags_format r N n s Hr Hs) as [code [rest [Hcode Heq]]].
  exists r, n, N, code, rest.
  split; [exact Hr|]. split; [exact Hn|].
  split; [exact (@rule_reach_nodes r tree n Hr Hn)|].
  split; [exact Hf|]. split; [exact (@rule_fires_triggers r n Hr Hf)|].
  split; [exact HN|]. split; [exact Hline|]. split; [exact Hs|].
  split; [exact Hcode | exact Heq].
Qed.

Lemma run_all_checks_diagnostics_witness :
  [exec_eval_message 1 "exec"; subprocess_message 3 "run";
   pickle_message 2 "loads"] =
  flat_map (fun r => rule_output r Samples.mixed) rules.
Proof.
  exact (proj1 (@run_all_checks_diagnostics Samples.mixed
                  [exec_eval_message 1 "exec"; subprocess_message 3 "run";
                   pickle_message 2 "loads"] eq_refl)).
Defined.

(** ** Further properties of the checks *)

Lemma rule_output_select (r : rule) (render : node -> string) (tree : node) :
  (forall n, rule_diags r (line_of n) n = [render n]) ->
  rule_output r tree = map render (filter (rule_fires r) (rule_reach r tree)).
Proof.
  intros H. unfold rule_output. rewrite <- flat_map_select.
  apply flat_map_ext_In. intros n _. rewrite H. reflexivity.
Qed.

Lemma run_rule_returns (r : rule) (tree : node) :
  lined r tree = true -> run_rule r tree = Ok (rule_output r tree).
Proof. intros H. unfold run_rule. rewrite rule_returns by exact H. reflexivity. Qed.

(** X1: [check_pickle_usage] needs a line only on the calls it flags.  When
    every call [pickle.load(...)] or [pickle.loads(...)] of the tree carries
    its line, the check returns, in visiting order, exactly one diagnostic
    for each such call and nothing for any other node; the calls it flags
    are those whose function is the attribute [load] or [loads] of the bare
    name [pickle]. *)
Theorem check_pickle_usage_spec (tree : node) :
  lined pickle_rule tree = true ->
  check_pickle_usage tree =
    Ok (map (fun n => pickle_message (line_of n) (callee_attr n))
            (filter (is_member_call "pickle" ["load"; "loads"]) (nodes tree)))
  /\ (forall n,
        is_member_call "pickle" ["load"; "loads"] n = true <->
        exists l1 attr l2 args kws l,
          n = Call (Attribute (Name "pickle" l1) attr l2) args kws l /\
          (attr = "load" \/ attr = "loads")).
Proof.
  intros Hl. split.
  - rewrite check_pickle_usage_rule, (run_rule_returns _ _ Hl).
    rewrite (rule_output_select pickle_rule
               (fun n => pickle_message (line_of n) (callee_attr n)));
      reflexivity.
  - intros n. split.
    + intros H. destruct n as [| | |f args kws l| | | |]; try discriminate H.
      destruct f as [| |v attr l2| | | | |]; try discriminate H.
      destruct v as [id l1| | | | | | |]; try discriminate H.
      cbn [is_member_call] in H. apply andb_true_iff in H. destruct H as [Hid Hattr].
      apply String.eqb_eq in Hid. subst id.
      exists l1, attr, l2, args, kws, l. split; [reflexivity|].
      unfold Str.in_tuple in Hattr. cbn [existsb] in Hattr.
      rewrite orb_false_r, orb_true_iff, !String.eqb_eq in Hattr. exact Hattr.
    + intros [l1 [attr [l2 [args [kws [l [-> Hattr]]]]]]].
      cbn [is_member_call]. unfold Str.in_tuple. cbn [existsb].
      rewrite orb_false_r. apply andb_true_iff. split; [reflexivity|].
      apply orb_true_iff. rewrite !String.eqb_eq. exact Hattr.
Qed.

Lemma check_pickle_usage_spec_witness :
  lined pickle_rule Samples.unlocated = false /\
  lined pickle_rule Samples.mixed = true /\
  check_pickle_usage Samples.mixed = Ok [pickle_message 2 "loads"].
Proof.
  split; [reflexivity|]. split; [reflexivity|].
  exact (proj1 (check_pickle_usage_spec Samples.mixed eq_refl)).
Defined.

(** X2: [check_weak_hashing_usage] flags attribute accesses, not calls.
    When every access [hashlib.md5] or [hashlib.sha1] of the tree carries
    its line, the check returns, in visiting order, exactly one diagnostic
    for each such access, called or not, and nothing for any other node. *)
Theorem check_weak_hashing_usage_spec (tree : node) :
  lined weak_hash_rule tree = true ->
  check_weak_hashing_usage tree =
    Ok (map (fun n => weak_hash_message (line_of n) (attr_of n))
            (filter is_weak_hash_access (nodes tree)))
  /\ (forall n,
        is_weak_hash_access n = true <->
        exists l1 attr l,
          n = Attribute (Name "hashlib" l1) attr l /\
          (attr = "md5" \/ attr = "sha1")).
Proof.
  intros Hl. split.
  - rewrite check_weak_hashing_usage_rule, (run_rule_returns _ _ Hl).
    rewrite (rule_output_select weak_hash_rule
               (fun n => weak_hash_message (line_of n) (attr_of n)));
      reflexivity.
  - intros n. split.
    + intros H. destruct n as [| |v attr l| | | | |]; try discriminate H.
      destruct v as [id l1| | | | | | |]; try discriminate H.
      cbn [is_weak_hash_access] in H. apply andb_true_iff in H. destruct H as [Hid Hattr].
      apply String.eqb_eq in Hid. subst id.
      exists l1, attr, l. split; [reflexivity|].
      unfold Str.in_tuple in Hattr. cbn [existsb] in Hattr.
      rewrite orb_false_r, orb_true_iff, !String.eqb_eq in Hattr. exact Hattr.
    + intros [l1 [attr [l [-> Hattr]]]].
      cbn [is_weak_hash_access]. unfold Str.in_tuple. cbn [existsb].
      rewrite orb_false_r. apply andb_true_iff. split; [reflexivity|].
      apply orb_true_iff. rewrite !String.eqb_eq. exact Hattr.
Qed.

Lemma check_weak_hashing_usage_spec_witness :
  lined weak_hash_rule Samples.hashes = true /\
  check_weak_hashing_usage Samples.hashes =
    Ok [weak_hash_message 1 "md5"; weak_hash_message 2 "sha1"].
Proof.
  split; [reflexivity|].
  exact (proj1 (check_weak_hashing_usage_spec Samples.hashes eq_refl)).
Defined.

Lemma flat_map_nil_inv {X Y} (f : X -> list Y) (l : list X) :
  flat_map f l = [] -> forall x, In x l -> f x = [].
Proof.
  induction l as [|y l IH]; intros H x Hx; [destruct Hx|].
  cbn [flat_map] in H. apply app_eq_nil in H. destruct H as [Hy Hl].
  destruct Hx as [<-|Hx]; [exact Hy | exact (IH Hl x Hx)].
Qed.

Lemma run_rule_nil_clean (r : rule) (tree : node) :
  In r rules -> run_rule r tree = Ok [] ->
  forall n, In n (rule_reach r tree) -> rule_fires r n = false.
Proof.
  intros Hr Hrun n Hn. destruct (rule_fires r n) eqn:Hf; [|reflexivity]. exfalso.
  pose proof (@rule_returned_lined _ _ _ _ _ Hrun) as Hl.
  unfold run_rule in Hrun. rewrite (@rule_returns _ _ _ _ Hl) in Hrun.
  inversion Hrun as [Hout]. cbn [app] in Hout.
  pose proof (flat_map_nil_inv _ _ Hout n Hn) as Hnil. cbn beta in Hnil.
  rewrite Hf in Hnil.
  exact (@rule_diags_nonempty r (line_of n) n Hr Hf Hnil).
Qed.

(** X5: an empty result means a clean tree.  On a tree that follows the
    grammar of [ast], if [run_all_checks] returns the empty list then no
    rule fires at any node of the tree. *)
Theorem run_all_checks_empty_clean (tree : node) :
  grammatical tree = true ->
  run_all_checks tree = Ok [] ->
  forall n, In n (nodes tree) -> triggers n = false.
Proof.
  intros Hg Hrun n Hn. destruct (triggers n) eqn:Ht; [|reflexivity]. exfalso.
  destruct (@triggers_fires n Ht) as [r [Hr Hf]].
  rewrite run_all_checks_rules in Hrun.
  assert (Hnil : run_rule r tree = Ok []).
  { apply (@collect_nil _ Hrun). apply in_map_iff. exists r. split; [reflexivity | exact Hr]. }
  pose proof (@run_rule_nil_clean r tree Hr Hnil n
                (@grammatical_reach r tree n Hg Hr Hn Hf)) as Hno.
  rewrite Hf in Hno. discriminate Hno.
Qed.

(** In [Samples.aliased] the call [sp.run(cmd, shell=True)] triggers no
    rule. *)
Lemma run_all_checks_empty_clean_witness :
  triggers (Call (Attribute (Samples.name "sp" 2) "run" (Some 2%Z))
                 [Samples.name "cmd" 2]
                 [Keyword (Some "shell") (Constant (CBool true) (Some 2%Z))]
                 (Some 2%Z)) = false.
Proof.
  apply (@run_all_checks_empty_clean Samples.aliased eq_refl eq_refl).
  cbn. tauto.
Defined.

(** X6: no finding is dropped for want of a line.  On a tree that follows
    the grammar of [ast], if some rule fires at a node that has no
    [lineno], [run_all_checks] raises instead of returning a list without
    that finding. *)
Theorem run_all_checks_unlined_raises (tree n : node) :
  grammatical tree = true ->
  In n (nodes tree) -> triggers n = true -> lineno_attr n = None ->
  raises (run_all_checks tree) = true.
Proof.
  intros Hg Hn Ht Hl. destruct (@triggers_fires n Ht) as [r [Hr Hf]].
  rewrite run_all_checks_rules.
  apply (@collect_raises _ (run_rule r tree)).
  - apply in_map_iff. exists r. split; [reflexivity | exact Hr].
  - unfold run_rule. apply (@rule_unlined_raises _ _ _ _ n); [|exact Hf | exact Hl].
    exact (@grammatical_reach r tree n Hg Hr Hn Hf).
Qed.

Lemma run_all_checks_unlined_raises_witness :
  raises (run_all_checks Samples.unlocated) = true.
Proof.
  apply (@run_all_checks_unlined_raises Samples.unlocated
           (Call (Attribute (Name "pickle" None) "loads" None)
                 [Name "blob" None] [] None)).
  - reflexivity.
  - cbn. tauto.
  - reflexivity.
  - reflexivity.
Defined.

(** ** The order of [ast.walk] *)

(** The walk yields the objects in its queue, then what comes of them: the
    objects queued behind, then the children of the first ones. *)
Lemma walk_queue_level (level behind : list AST) :
  walk_queue (level ++ behind) =
  level ++ walk_queue (behind ++ flat_map iter_child_nodes level).
Proof.
  revert behind. induction level as [|x level IH]; intros behind.
  - cbn [app flat_map]. rewrite app_nil_r. reflexivity.
  - cbn [app flat_map]. simp walk_queue. rewrite <- app_assoc, IH, <- app_assoc.
    reflexivity.
Qed.

Lemma walk_nodes_module (body : list node) (l : option Z) :
  walk_nodes (Other body l) = Other body l :: body ++ walk_below body.
Proof.
  unfold walk_nodes, walk, walk_below. simp walk_queue.
  cbn [app iter_child_nodes flat_map as_node].
  rewrite <- (app_nil_r (map ANode body)) at 1.
  rewrite walk_queue_level. cbn [app]. rewrite flat_map_app. f_equal. f_equal.
  rewrite flat_map_map. cbn [as_node]. induction body as [|s body IH];
    [reflexivity | cbn [flat_map app]; rewrite IH; reflexivity].
Qed.

Lemma json_logger_diags_rule (n : node) :
  (if is_json_logger_import n then json_logger_diags_at (line_of n) n else []) =
  json_logger_diags n.
Proof.
  destruct n; try reflexivity;
    cbn [is_json_logger_import json_logger_diags_at json_logger_diags].
  destruct (existsb _ names) eqn:He; [reflexivity|].
  rewrite (filter_existsb_false _ _ He). reflexivity.
Qed.

(** X7: [check_python_json_logger_import] reports breadth first.  For a
    module whose matching imports carry their lines, the imports that are
    statements of the module body are reported first, in body order, and
    every import nested deeper is reported after all of them, whatever its
    line. *)
Theorem check_python_json_logger_import_top_level_first
    (body : list node) (l : option Z) :
  lined json_logger_rule (Other body l) = true ->
  check_python_json_logger_import (Other body l) =
    Ok (flat_map json_logger_diags body ++
        flat_map json_logger_diags (walk_below body)).
Proof.
  intros Hl. rewrite check_python_json_logger_import_rule.
  rewrite (@run_rule_returns _ _ Hl). f_equal.
  unfold rule_output. cbn [rule_reach rule_fires rule_diags json_logger_rule].
  rewrite walk_nodes_module. cbn [flat_map is_json_logger_import app].
  rewrite flat_map_app.
  f_equal; apply flat_map_ext_In; intros n _; apply json_logger_diags_rule.
Qed.

Lemma check_python_json_logger_import_top_level_first_witness :
  lined json_logger_rule Samples.nested_import = true /\
  check_python_json_logger_import Samples.nested_import =
    Ok [json_logger_import_message 3; json_logger_import_message 2].
Proof.
  split; [reflexivity|].
  exact (@check_python_json_logger_import_top_level_first
           Samples.nested_import_body None eq_refl).
Defined.

(** ** Splitting a module *)

Lemma run_rule_split (r : rule) (b1 b2 : list node) (l l1 l2 : option Z) :
  (forall cs l', rule_fires r (Other cs l') = false) ->
  (forall cs l', rule_reach r (Other cs l') =
                 Other cs l' :: flat_map (rule_reach r) cs) ->
  run_rule r (Other (b1 ++ b2) l) =
  (a <- run_rule r (Other b1 l1) ;;
   b <- run_rule r (Other b2 l2) ;;
   Ok (a ++ b)).
Proof.
  intros Hfires Hreach. unfold run_rule. rewrite !Hreach. cbn [for_each].
  unfold rule_method at 1 3 5. rewrite !Hfires. cbn [bind].
  rewrite flat_map_app, for_each_app.
  destruct (for_each (rule_method (rule_fires r) (rule_diags r))
                     (flat_map (rule_reach r) b1) []) as [a|e]; cbn [bind];
    [|reflexivity].
  apply rule_frame.
Qed.

(** X8: the visitor checks are compositional over a module body.  For each
    of the six checks that traverse with a [NodeVisitor], checking a module
    whose body is [b1 ++ b2] is checking a module of body [b1], then one of
    body [b2], and appending the two results (an exception of the first
    part, else of the second, being the exception of the whole). *)
Theorem visitor_checks_split
    (check : node -> result (list string)) (b1 b2 : list node)
    (l l1 l2 : option Z) :
  In check visitor_checks ->
  check (Other (b1 ++ b2) l) =
  (a <- check (Other b1 l1) ;;
   b <- check (Other b2 l2) ;;
   Ok (a ++ b)).
Proof.
  intros Hin. cbn [visitor_checks In] in Hin.
  destruct Hin as [<-|[<-|[<-|[<-|[<-|[<-|[]]]]]]].
  - rewrite !check_exec_eval_usage_rule.
    apply run_rule_split; intros; reflexivity.
  - rewrite !check_subprocess_usage_rule.
    apply run_rule_split; intros; reflexivity.
  - rewrite !check_pickle_usage_rule.
    apply run_rule_split; intros; reflexivity.
  - rewrite !check_yaml_load_usage_rule.
    apply run_rule_split; intros; reflexivity.
  - rewrite !check_hardcoded_secrets_rule.
    apply run_rule_split; intros; reflexivity.
  - rewrite !check_weak_hashing_usage_rule.
    apply run_rule_split; intros; reflexivity.
Qed.

Lemma visitor_checks_split_witness :
  check_weak_hashing_usage Samples.hashes =
  (a <- check_weak_hashing_usage
          (Other [ Assign [Name "digest" None]
                          (Call (Attribute (Samples.name "hashlib" 1) "md5" (Some 1%Z))
                                [Samples.name "blob" 1] [] (Some 1%Z)) (Some 1%Z) ]
                 None) ;;
   b <- check_weak_hashing_usage
          (Other [ Assign [Name "algorithm" None]
                          (Attribute (Samples.name "hashlib" 2) "sha1" (Some 2%Z))
                          (Some 2%Z);
                   Samples.expr_stmt
                     (Call (Attribute (Samples.name "hashlib" 3) "sha256" (Some 3%Z))
                           [Samples.name "blob" 3] [] (Some 3%Z)) 3 ]
                 None) ;;
   Ok (a ++ b)).
Proof.
  apply (@visitor_checks_split check_weak_hashing_usage
           [ Assign [Name "digest" None]
                    (Call (Attribute (Samples.name "hashlib" 1) "md5" (Some 1%Z))
                          [Samples.name "blob" 1] [] (Some 1%Z)) (Some 1%Z) ]).
  cbn. tauto.
Defined.
